(** * array-index-check-undefined: a shallow embedding of the rule

    The development follows [src/rules/array-index-check-undefined/index.ts].
    The syntax tree is the subset of ESTree the rule inspects; a node is
    located by the chain of its ancestors, which is what the rule's
    [node.parent] walks traverse. *)

From Stdlib Require Import List String Ascii Bool Arith NArith ZArith Lia.
From Stdlib Require Import DecimalString.
Import ListNotations.
Local Open Scope string_scope.
Local Open Scope list_scope.

Set Implicit Arguments.
Set Warnings "-register-all".

(** ** Syntax tree *)

Module AST.

(** The value of a [Literal] node.  A numeric literal carries its value;
    [String(value)] of a non-negative integer literal below 10^21 is
    its decimal numeral.  A regular expression and a big integer carry the text
    [String(value)] gives. *)
Inductive literalValue : Type :=
| LNumber (n : N)
| LString (s : string)
| LBoolean (b : bool)
| LNull
| LRegExp (text : string)
| LBigInt (digits : string).

(** The node kinds the rule tells apart.  [Other] stands for every node
    type the rule never tests for (function expressions, class bodies,
    [this], array and object literals, ...): it keeps its type name and its
    children so that the traversal and the parent walks pass through it. *)
Inductive node : Type :=
| Identifier (name : string)
| Literal (value : literalValue)
| MemberExpression (object property : node) (computed optional : bool)
| CallExpression (callee : node) (arguments : list node) (optional : bool)
| ChainExpression (expression : node)
| LogicalExpression (operator : string) (left right : node)
| BinaryExpression (operator : string) (left right : node)
| UnaryExpression (operator : string) (argument : node)
| ConditionalExpression (test consequent alternate : node)
| AssignmentExpression (operator : string) (left right : node)
| ExpressionStatement (expression : node)
| BlockStatement (body : list node)
| Program (body : list node)
| IfStatement (test consequent : node) (alternate : option node)
| ReturnStatement (argument : option node)
| ThrowStatement (argument : node)
| ForStatement (init test update : option node) (body : node)
| VariableDeclaration (kind : string) (declarations : list node)
| VariableDeclarator (id : node) (init : option node)
| Other (type : string) (children : list node).

(** The property of a parent through which a child is reached. *)
Inductive field : Type :=
| FObject | FProperty | FCallee | FArguments (i : nat) | FExpression
| FLeft | FRight | FArgument | FTest | FConsequent | FAlternate
| FBody (i : nat) | FInit | FUpdate | FLoopBody
| FDeclarations (i : nat) | FId | FChildren (i : nat).

Definition field_eqb (f g : field) : bool :=
  match f, g with
  | FObject, FObject | FProperty, FProperty | FCallee, FCallee
  | FExpression, FExpression | FLeft, FLeft | FRight, FRight
  | FArgument, FArgument | FTest, FTest | FConsequent, FConsequent
  | FAlternate, FAlternate | FInit, FInit | FUpdate, FUpdate
  | FLoopBody, FLoopBody | FId, FId => true
  | FArguments i, FArguments j | FBody i, FBody j
  | FDeclarations i, FDeclarations j | FChildren i, FChildren j => Nat.eqb i j
  | _, _ => false
  end.

(** A node reference: object identity in the source is position in the
    tree, the fields followed from the node up to the root. *)
Definition path := list field.

Fixpoint path_eqb (p q : path) : bool :=
  match p, q with
  | [], [] => true
  | f :: p', g :: q' => field_eqb f g && path_eqb p' q'
  | _, _ => false
  end.

(** A located node: the node together with its ancestors, innermost
    first, each with the field that leads down towards the node.
    [node.parent] is the head of [up]. *)
Record loc : Type := Loc { here : node; up : list (node * field) }.

Definition path_of (l : loc) : path := map snd (up l).

(** [a === b] on node references of one tree. *)
Definition same_node (a b : loc) : bool := path_eqb (path_of a) (path_of b).

(** The proper ancestors, innermost first: the successive values of
    [current] in a [current = current.parent] walk starting at the parent. *)
Fixpoint ancestors_up (u : list (node * field)) : list loc :=
  match u with
  | [] => []
  | (p, _) :: r => Loc p r :: ancestors_up r
  end.
Definition ancestors (l : loc) : list loc := ancestors_up (up l).

(** The reference to the child [c] found in field [f] of [l]. *)
Definition sub (l : loc) (f : field) (c : node) : loc :=
  Loc c ((here l, f) :: up l).

(** The children of a node, each with the field that holds it. *)
Fixpoint indexed (mk : nat -> field) (i : nat) (l : list node)
  : list (field * node) :=
  match l with
  | [] => []
  | x :: r => (mk i, x) :: indexed mk (S i) r
  end.

Definition opt_child (f : field) (o : option node) : list (field * node) :=
  match o with Some x => [(f, x)] | None => [] end.

Definition children (n : node) : list (field * node) :=
  match n with
  | Identifier _ | Literal _ => []
  | MemberExpression o p _ _ => [(FObject, o); (FProperty, p)]
  | CallExpression c a _ => (FCallee, c) :: indexed FArguments 0 a
  | ChainExpression e | ExpressionStatement e => [(FExpression, e)]
  | LogicalExpression _ l r | BinaryExpression _ l r
  | AssignmentExpression _ l r => [(FLeft, l); (FRight, r)]
  | UnaryExpression _ a | ThrowStatement a => [(FArgument, a)]
  | ConditionalExpression t c a =>
      [(FTest, t); (FConsequent, c); (FAlternate, a)]
  | BlockStatement b | Program b => indexed FBody 0 b
  | IfStatement t c a =>
      (FTest, t) :: (FConsequent, c) :: opt_child FAlternate a
  | ReturnStatement a => opt_child FArgument a
  | ForStatement i t s b =>
      opt_child FInit i ++ opt_child FTest t ++ opt_child FUpdate s ++
      [(FLoopBody, b)]
  | VariableDeclaration _ d => indexed FDeclarations 0 d
  | VariableDeclarator x i => (FId, x) :: opt_child FInit i
  | Other _ c => indexed FChildren 0 c
  end.

Definition parent (l : loc) : option loc :=
  match up l with
  | [] => None
  | (p, _) :: u => Some (Loc p u)
  end.

(** The depth-first, parent-before-children order in which the host
    enters the nodes; children in the order of the visitor keys. *)
Fixpoint visit (u : list (node * field)) (n : node) {struct n} : list loc :=
  Loc n u ::
  match n with
  | Identifier _ | Literal _ => []
  | MemberExpression o p _ _ =>
      visit ((n, FObject) :: u) o ++ visit ((n, FProperty) :: u) p
  | CallExpression c a _ =>
      visit ((n, FCallee) :: u) c ++
      (fix go (i : nat) (l : list node) : list loc :=
         match l with
         | [] => []
         | x :: r => visit ((n, FArguments i) :: u) x ++ go (S i) r
         end) 0 a
  | ChainExpression e => visit ((n, FExpression) :: u) e
  | LogicalExpression _ l r | BinaryExpression _ l r
  | AssignmentExpression _ l r =>
      visit ((n, FLeft) :: u) l ++ visit ((n, FRight) :: u) r
  | UnaryExpression _ a => visit ((n, FArgument) :: u) a
  | ConditionalExpression t c a =>
      visit ((n, FTest) :: u) t ++ visit ((n, FConsequent) :: u) c ++
      visit ((n, FAlternate) :: u) a
  | ExpressionStatement e => visit ((n, FExpression) :: u) e
  | BlockStatement b | Program b =>
      (fix go (i : nat) (l : list node) : list loc :=
         match l with
         | [] => []
         | x :: r => visit ((n, FBody i) :: u) x ++ go (S i) r
         end) 0 b
  | IfStatement t c a =>
      visit ((n, FTest) :: u) t ++ visit ((n, FConsequent) :: u) c ++
      match a with Some x => visit ((n, FAlternate) :: u) x | None => [] end
  | ReturnStatement a =>
      match a with Some x => visit ((n, FArgument) :: u) x | None => [] end
  | ThrowStatement a => visit ((n, FArgument) :: u) a
  | ForStatement i t s b =>
      match i with Some x => visit ((n, FInit) :: u) x | None => [] end ++
      match t with Some x => visit ((n, FTest) :: u) x | None => [] end ++
      match s with Some x => visit ((n, FUpdate) :: u) x | None => [] end ++
      visit ((n, FLoopBody) :: u) b
  | VariableDeclaration _ d =>
      (fix go (i : nat) (l : list node) : list loc :=
         match l with
         | [] => []
         | x :: r => visit ((n, FDeclarations i) :: u) x ++ go (S i) r
         end) 0 d
  | VariableDeclarator x i =>
      visit ((n, FId) :: u) x ++
      match i with Some y => visit ((n, FInit) :: u) y | None => [] end
  | Other _ c =>
      (fix go (i : nat) (l : list node) : list loc :=
         match l with
         | [] => []
         | x :: r => visit ((n, FChildren i) :: u) x ++ go (S i) r
         end) 0 c
  end.

End AST.
Import AST.

(** ** The rule's predicates on syntax *)

Module Rule.

(** JavaScript truthiness of a [string | null]. *)
Definition truthy (k : option string) : bool :=
  match k with
  | Some s => negb (s =? EmptyString)
  | None => false
  end.

(** [a === b] for a [string | null] against a string. *)
Definition key_is (k : option string) (s : string) : bool :=
  match k with
  | Some t => t =? s
  | None => false
  end.

(** [String(value)] of a numeric literal. *)
Definition string_of_number (n : N) : string :=
  NilEmpty.string_of_uint (N.to_uint n).

Definition string_of_literal (v : literalValue) : string :=
  match v with
  | LNumber n => string_of_number n
  | LString s => s
  | LBoolean true => "true"
  | LBoolean false => "false"
  | LNull => "null"
  | LRegExp text => text
  | LBigInt digits => digits
  end.

(** [isArrayIndexAccess]: computed, and the key is a numeric literal, an
    identifier or a binary expression. *)
Definition isArrayIndexAccess (n : node) : bool :=
  match n with
  | MemberExpression _ p computed _ =>
      if negb computed then false
      else
        let isNumericLiteral :=
          match p with Literal (LNumber _) => true | _ => false end in
        let isIdentifier :=
          match p with Identifier _ => true | _ => false end in
        let isBinaryExpression :=
          match p with BinaryExpression _ _ _ => true | _ => false end in
        isNumericLiteral || isIdentifier || isBinaryExpression
  | _ => false
  end.

(** [getObjectKey]: identifiers and dot chains of identifiers. *)
Fixpoint getObjectKey (n : node) : option string :=
  match n with
  | Identifier name => Some name
  | MemberExpression o p false _ =>
      let objKey := getObjectKey o in
      match objKey, p with
      | Some k, Identifier pname =>
          if truthy objKey then Some (k ++ "." ++ pname)%string else None
      | _, _ => None
      end
  | _ => None
  end.

(** [getForLoopArrayInfo]: [(indexVar, arrayKey)] of a [for] statement. *)
Definition getForLoopArrayInfo (forStatement : node)
  : option (string * string) :=
  match forStatement with
  | ForStatement _ (Some (BinaryExpression operator lhs rhs)) _ _ =>
      if negb (operator =? "<") && negb (operator =? "<=") then None
      else
        match lhs with
        | Identifier indexVar =>
            let lengthExpr :=
              match rhs with
              | MemberExpression _ _ _ _ => Some rhs
              | BinaryExpression op (MemberExpression _ _ _ _ as l) _ =>
                  if op =? "-" then Some l else None
              | _ => None
              end in
            match lengthExpr with
            | Some (MemberExpression lobj (Identifier pname) _ _) =>
                if negb (pname =? "length") then None
                else
                  let arrayKey := getObjectKey lobj in
                  match arrayKey with
                  | Some k => if truthy arrayKey then Some (indexVar, k)
                              else None
                  | None => None
                  end
            | _ => None
            end
        | _ => None
        end
  | _ => None
  end.

(** [isInsideSafeForLoop]. *)
Definition isInsideSafeForLoop (node : loc) : bool :=
  match here node with
  | MemberExpression obj (Identifier indexVar) _ _ =>
      let arrayKey := getObjectKey obj in
      match arrayKey with
      | Some k =>
          if negb (truthy arrayKey) then false
          else
            existsb
              (fun current =>
                 match getForLoopArrayInfo (here current) with
                 | Some (iv, ak) => (iv =? indexVar) && (ak =? k)
                 | None => false
                 end)
              (ancestors node)
      | None => false
      end
  | _ => false
  end.

(** [getArrayIndexAccessKey] and [getMemberExpressionKey] call each other;
    the recursion is on the object.  [memberKey] is the pair, the
    computed case being [getArrayIndexAccessKey]. *)
Definition arrayIndexKey (nestedKey : option string) (n : node)
  : option string :=
  if negb (isArrayIndexAccess n) then None
  else
    match n with
    | MemberExpression obj prop _ _ =>
        let objectKey :=
          match obj with
          | Identifier name => Some name
          | MemberExpression _ _ _ _ =>
              if truthy nestedKey then nestedKey else None
          | _ => None
          end in
        match objectKey with
        | None => None
        | Some ok =>
            let indexKey :=
              match prop with
              | Literal v => Some (string_of_literal v)
              | Identifier name => Some name
              | _ => None
              end in
            match indexKey with
            | Some ik => Some (ok ++ "[" ++ ik ++ "]")%string
            | None => None
            end
        end
    | _ => None
    end.

Fixpoint getMemberExpressionKey (n : node) : option string :=
  match n with
  | MemberExpression obj prop computed _ =>
      if computed then arrayIndexKey (getMemberExpressionKey obj) n
      else
        let objectKey :=
          match obj with
          | Identifier name => Some name
          | MemberExpression _ _ _ _ =>
              let nestedKey := getMemberExpressionKey obj in
              if truthy nestedKey then nestedKey else None
          | _ => None
          end in
        match objectKey, prop with
        | Some ok, Identifier pname => Some (ok ++ "." ++ pname)%string
        | _, _ => None
        end
  | _ => None
  end.

Definition getArrayIndexAccessKey (n : node) : option string :=
  match n with
  | MemberExpression obj _ _ _ => arrayIndexKey (getMemberExpressionKey obj) n
  | _ => None
  end.

(** [isDescendant(parent, child)]: [parent] is a proper ancestor of
    [child]. *)
Definition isDescendant (parent child : loc) : bool :=
  existsb (same_node parent) (ancestors child).

(** [isSafeInLogicalAnd]. *)
Definition isSafeInLogicalAnd (node expr : loc) : bool :=
  match here expr with
  | LogicalExpression operator _ r =>
      let right := sub expr FRight r in
      let isOnRightSide := same_node right node || isDescendant right node in
      (operator =? "&&") && isOnRightSide
  | _ => false
  end.

(** [isNullishCoalescing]. *)
Definition isNullishCoalescing (expr : loc) : bool :=
  match here expr with
  | LogicalExpression operator _ _ => operator =? "??"
  | _ => false
  end.

(** [isSafeInConditional]: the node is in the test or the consequent. *)
Definition isSafeInConditional (node expr : loc) : bool :=
  match here expr with
  | ConditionalExpression t c _ =>
      let test := sub expr FTest t in
      let consequent := sub expr FConsequent c in
      let isInTest := same_node test node || isDescendant test node in
      let isInConsequent :=
        same_node consequent node || isDescendant consequent node in
      isInTest || isInConsequent
  | _ => false
  end.

(** [checkNodeSafety]. *)
Definition checkNodeSafety (node current : loc) : bool :=
  match here current with
  | IfStatement _ _ _ => true
  | LogicalExpression _ _ _ =>
      isSafeInLogicalAnd node current || isNullishCoalescing current
  | ConditionalExpression _ _ _ => isSafeInConditional node current
  | _ => false
  end.

(** [isInsideNullCheck]. *)
Definition isInsideNullCheck (node : loc) : bool :=
  existsb (checkNodeSafety node) (ancestors node).

(** [hasOptionalChaining]. *)
Definition hasOptionalChaining (node : loc) : bool :=
  match here node with
  | MemberExpression _ _ _ true => true
  | _ =>
      existsb
        (fun current =>
           match here current with ChainExpression _ => true | _ => false end)
        (ancestors node)
  end.

Definition isComparison (operator : string) : bool :=
  (operator =? "!==") || (operator =? "!=") ||
  (operator =? "===") || (operator =? "==").

Definition isNullOrUndefined (r : node) : bool :=
  let isNullLiteral := match r with Literal LNull => true | _ => false end in
  let isUndefinedIdentifier :=
    match r with Identifier name => name =? "undefined" | _ => false end in
  isNullLiteral || isUndefinedIdentifier.

(** [isBinaryNullCheck], variable form. *)
Definition isBinaryNullCheck (expr : node) (variableName : string) : bool :=
  match expr with
  | BinaryExpression operator l r =>
      if negb (isComparison operator) then false
      else
        match l with
        | Identifier name =>
            if negb (name =? variableName) then false
            else isNullOrUndefined r
        | _ => false
        end
  | _ => false
  end.

(** [isBinaryNullCheckForExpression], access form. *)
Definition isBinaryNullCheckForExpression (expr : node)
           (expressionKey : string) : bool :=
  match expr with
  | BinaryExpression operator l r =>
      if negb (isComparison operator) then false
      else
        match l with
        | MemberExpression _ _ _ _ =>
            let leftKey := getArrayIndexAccessKey l in
            if negb (key_is leftKey expressionKey) then false
            else isNullOrUndefined r
        | _ => false
        end
  | _ => false
  end.

(** [checksForNullish], variable form. *)
Fixpoint checksForNullish (test : node) (variableName : string) : bool :=
  match test with
  | Identifier name => name =? variableName
  | UnaryExpression operator argument =>
      if operator =? "!" then
        match argument with
        | Identifier name => name =? variableName
        | _ => false
        end
      else false
  | BinaryExpression _ _ _ => isBinaryNullCheck test variableName
  | LogicalExpression operator l r =>
      if operator =? "&&" then
        checksForNullish l variableName || checksForNullish r variableName
      else if operator =? "||" then
        checksForNullish l variableName || checksForNullish r variableName
      else false
  | _ => false
  end.

(** [checksForNullishExpression], access form. *)
Fixpoint checksForNullishExpression (test : node) (expressionKey : string)
  : bool :=
  match test with
  | MemberExpression _ _ _ _ =>
      key_is (getArrayIndexAccessKey test) expressionKey
  | BinaryExpression _ _ _ => isBinaryNullCheckForExpression test expressionKey
  | LogicalExpression operator l r =>
      if operator =? "&&" then
        checksForNullishExpression l expressionKey ||
        checksForNullishExpression r expressionKey
      else false
  | _ => false
  end.

(** [isInsideIfConsequent], variable form. *)
Definition isInsideIfConsequent (node ifStatement : loc)
           (variableName : string) : bool :=
  match here ifStatement with
  | IfStatement test consequent _ =>
      if negb (checksForNullish test variableName) then false
      else isDescendant (sub ifStatement FConsequent consequent) node
  | _ => false
  end.

(** [hasEarlyExit]: a [throw] or [return], through nested blocks. *)
Fixpoint hasEarlyExit (statement : node) : bool :=
  match statement with
  | ThrowStatement _ | ReturnStatement _ => true
  | BlockStatement body => existsb hasEarlyExit body
  | _ => false
  end.

(** [isInsideIfConsequentExpression], access form. *)
Definition isInsideIfConsequentExpression (node ifStatement : loc)
           (expressionKey : string) : bool :=
  match here ifStatement with
  | IfStatement test consequent _ =>
      if negb (checksForNullishExpression test expressionKey) then false
      else isDescendant (sub ifStatement FConsequent consequent) node
  | _ => false
  end.

(** [isInsideLogicalAndRight], variable form. *)
Definition isInsideLogicalAndRight (node logicalExpr : loc)
           (variableName : string) : bool :=
  match here logicalExpr with
  | LogicalExpression operator l r =>
      if negb (operator =? "&&") then false
      else
        match l with
        | Identifier name =>
            if negb (name =? variableName) then false
            else isDescendant (sub logicalExpr FRight r) node
        | _ => false
        end
  | _ => false
  end.

(** [isInsideLogicalAndRightExpression], access form. *)
Definition isInsideLogicalAndRightExpression (node logicalExpr : loc)
           (expressionKey : string) : bool :=
  match here logicalExpr with
  | LogicalExpression operator l r =>
      if negb (operator =? "&&") then false
      else
        match l with
        | MemberExpression _ _ _ _ =>
            let leftKey := getArrayIndexAccessKey l in
            if negb (key_is leftKey expressionKey) then false
            else isDescendant (sub logicalExpr FRight r) node
        | _ => false
        end
  | _ => false
  end.

(** [findContainingStatement]: the nearest ancestor-or-self whose parent
    is a block or the program. *)
Fixpoint findContainingStatement_from (n : node) (u : list (node * field))
  : option loc :=
  match u with
  | [] => None
  | (p, _) :: r =>
      match p with
      | BlockStatement _ | Program _ => Some (Loc n u)
      | _ => findContainingStatement_from p r
      end
  end.
Definition findContainingStatement (node : loc) : option loc :=
  findContainingStatement_from (here node) (up node).

(** [getStatements]: the statement references of a block or program. *)
Definition getStatements (parent : loc) : option (list loc) :=
  match here parent with
  | BlockStatement body | Program body =>
      Some (map (fun fc => sub parent (fst fc) (snd fc)) (indexed FBody 0 body))
  | _ => None
  end.

(** [Array.prototype.indexOf] on node references. *)
Fixpoint indexOf_from (i : nat) (l : list loc) (x : loc) : option nat :=
  match l with
  | [] => None
  | y :: r => if same_node y x then Some i else indexOf_from (S i) r x
  end.
Definition indexOf (l : list loc) (x : loc) : option nat := indexOf_from 0 l x.

(** [hasEarlyExitPatternForExpression]. *)
Definition hasEarlyExitPatternForExpression (prevStatement : node)
           (expressionKey : string) : bool :=
  match prevStatement with
  | IfStatement test consequent _ =>
      checksForNullishExpression test expressionKey && hasEarlyExit consequent
  | _ => false
  end.

(** [isFalsyCheckExpression]: [!expr]. *)
Definition isFalsyCheckExpression (test : node) (expressionKey : string)
  : bool :=
  match test with
  | UnaryExpression operator argument =>
      if operator =? "!" then
        match argument with
        | MemberExpression _ _ _ _ =>
            key_is (getArrayIndexAccessKey argument) expressionKey
        | _ => false
        end
      else false
  | _ => false
  end.

(** [hasAssignmentToExpression]. *)
Fixpoint hasAssignmentToExpression (statement : node) (expressionKey : string)
  : bool :=
  match statement with
  | ExpressionStatement (AssignmentExpression _ (MemberExpression _ _ _ _ as l) _) =>
      key_is (getArrayIndexAccessKey l) expressionKey
  | BlockStatement body =>
      existsb (fun stmt => hasAssignmentToExpression stmt expressionKey) body
  | _ => false
  end.

(** [hasInitializationPatternForExpression]: [if (!expr) { expr = v }]. *)
Definition hasInitializationPatternForExpression (prevStatement : node)
           (expressionKey : string) : bool :=
  match prevStatement with
  | IfStatement test consequent _ =>
      if negb (isFalsyCheckExpression test expressionKey) then false
      else hasAssignmentToExpression consequent expressionKey
  | _ => false
  end.

(** [hasEarlyExitPatternForVariable]. *)
Definition hasEarlyExitPatternForVariable (prevStatement : node)
           (variableName : string) : bool :=
  match prevStatement with
  | IfStatement test consequent _ =>
      checksForNullish test variableName && hasEarlyExit consequent
  | _ => false
  end.

(** The statements before the one that contains the node, in its block:
    the common part of both [checkPreviousIfStatements...] functions. *)
Definition previousStatements (node : loc) : option (list loc) :=
  match findContainingStatement node with
  | None => None
  | Some statement =>
      match parent statement with
      | None => None
      | Some p =>
          match getStatements p with
          | None => None
          | Some statements =>
              match indexOf statements statement with
              | None => None
              | Some statementIndex => Some (firstn statementIndex statements)
              end
          end
      end
  end.

(** [checkPreviousIfStatementsForExpression]. *)
Definition checkPreviousIfStatementsForExpression (node : loc)
           (expressionKey : string) : bool :=
  match previousStatements node with
  | None => false
  | Some prev =>
      existsb
        (fun prevStatement =>
           hasEarlyExitPatternForExpression (here prevStatement) expressionKey
           || hasInitializationPatternForExpression (here prevStatement)
                expressionKey)
        prev
  end.

(** [checkPreviousIfStatementsForVariable]. *)
Definition checkPreviousIfStatementsForVariable (node : loc)
           (variableName : string) : bool :=
  match previousStatements node with
  | None => false
  | Some prev =>
      existsb
        (fun prevStatement =>
           hasEarlyExitPatternForVariable (here prevStatement) variableName)
        prev
  end.

(** [isInsideNullCheckedBlock], variable form. *)
Definition isInsideNullCheckedBlock (node : loc) (variableName : string)
  : bool :=
  if checkPreviousIfStatementsForVariable node variableName then true
  else
    existsb
      (fun current =>
         match here current with
         | IfStatement _ _ _ => isInsideIfConsequent node current variableName
         | LogicalExpression _ _ _ =>
             isInsideLogicalAndRight node current variableName
         | _ => false
         end)
      (ancestors node).

(** [isInsideNullCheckedBlockExpression], access form. *)
Definition isInsideNullCheckedBlockExpression (node : loc)
           (expressionKey : string) : bool :=
  if checkPreviousIfStatementsForExpression node expressionKey then true
  else
    existsb
      (fun current =>
         match here current with
         | IfStatement _ _ _ =>
             isInsideIfConsequentExpression node current expressionKey
         | LogicalExpression _ _ _ =>
             isInsideLogicalAndRightExpression node current expressionKey
         | _ => false
         end)
      (ancestors node).

(** [isUnsafePropertyAccess]: [arr[0].foo]. *)
Definition isUnsafePropertyAccess (node : loc) (parent : option loc) : bool :=
  match parent with
  | Some p =>
      match here p with
      | MemberExpression o _ _ _ =>
          same_node (sub p FObject o) node &&
          negb (hasOptionalChaining p) && negb (isInsideNullCheck node)
      | _ => false
      end
  | None => false
  end.

(** [isUnsafeFunctionCall]: [arr[0]()]. *)
Definition isUnsafeFunctionCall (node : loc) (parent : option loc) : bool :=
  match parent with
  | Some p =>
      match here p with
      | CallExpression c _ _ =>
          same_node (sub p FCallee c) node &&
          negb (hasOptionalChaining node) && negb (isInsideNullCheck node)
      | _ => false
      end
  | None => false
  end.

(** [getArrayIndexVariableName]: the name in [const item = arr[0]]. *)
Definition getArrayIndexVariableName (node : loc) : option string :=
  match AST.parent node with
  | Some declarator =>
      match here declarator with
      | VariableDeclarator (Identifier name) (Some i) =>
          if same_node (sub declarator FInit i) node then Some name else None
      | _ => None
      end
  | None => None
  end.

End Rule.

(** ** The type-checking capability *)

Module TS.

(** An operation of the type checker returns or throws. *)
Inductive result (A : Type) : Type :=
| Ok (a : A)
| Thrown.
Arguments Thrown {A}.

Definition bind {A B : Type} (r : result A) (k : A -> result B) : result B :=
  match r with
  | Ok a => k a
  | Thrown => Thrown
  end.

Notation "x <- r ;; k" := (bind r (fun x => k))
  (at level 61, r at next level, right associativity).

(** [try { return r } catch { return false }]. *)
Definition catch_false (r : result bool) : bool :=
  match r with
  | Ok b => b
  | Thrown => false
  end.

(** The bits of [ts.TypeFlags] the rule tests, with the values the
    TypeScript compiler gives them. *)
Module TypeFlags.
Definition Number : Z := 8.
Definition StringLiteral : Z := 128.
Definition NumberLiteral : Z := 256.
Definition EnumLiteral : Z := 1024.
Definition Union : Z := 1048576.
End TypeFlags.

(** What the rule asks of a declaration of a type's symbol. *)
Record declaration : Type := Declaration {
  isEnumMember : bool;              (* ts.isEnumMember(d) *)
  parentIsEnumDeclaration : bool    (* ts.isEnumDeclaration(d.parent) *)
}.

(** A [ts.Type]: its identity, its flags, the members of a union, and the
    declarations of its symbol ([None]: no symbol, or no declarations). *)
Inductive tsType : Type :=
| Type_ (tid : nat) (flags : Z) (types : list tsType)
        (declarations : option (list declaration)).

Definition tid (t : tsType) : nat := let 'Type_ i _ _ _ := t in i.
Definition flags (t : tsType) : Z := let 'Type_ _ f _ _ := t in f.
Definition types (t : tsType) : list tsType := let 'Type_ _ _ l _ := t in l.
Definition declarations (t : tsType) : option (list declaration) :=
  let 'Type_ _ _ _ d := t in d.

(** [flags & bit], as a condition. *)
Definition has_flag (t : tsType) (bit : Z) : bool :=
  negb (Z.land (flags t) bit =? 0)%Z.

Definition isUnion (t : tsType) : bool := has_flag t TypeFlags.Union.
Definition isStringLiteral (t : tsType) : bool :=
  has_flag t TypeFlags.StringLiteral.
Definition isNumberLiteral (t : tsType) : bool :=
  has_flag t TypeFlags.NumberLiteral.

(** A reference to a node of the TypeScript tree. *)
Definition tsRef := nat.

(** The TypeScript node of an ESTree node. *)
Record tsNode : Type := TsNode {
  isElementAccessExpression : bool;
  expression : tsRef;
  argumentExpression : tsRef
}.

Record TypeChecker : Type := {
  getTypeAtLocation : tsRef -> result tsType;
  isArrayType : tsType -> result bool;
  isTupleType : tsType -> result bool;
  getBaseConstraintOfType : tsType -> result (option tsType);
  getPropertiesOfType : tsType -> result nat   (* the length of the list *)
}.

Record tsProgram : Type := { getTypeChecker : result TypeChecker }.

Record ParserServices : Type := {
  program : option tsProgram;
  esTreeNodeToTSNodeMap_get : path -> result (option tsNode)
}.

(** [isEnumType]. *)
Definition isEnumType (type : tsType) : bool :=
  if has_flag type TypeFlags.EnumLiteral then true
  else if isUnion type then
    forallb (fun t => has_flag t TypeFlags.EnumLiteral) (types type)
  else
    match declarations type with
    | Some ds =>
        if existsb (fun d => isEnumMember d || parentIsEnumDeclaration d) ds
        then true else false
    | None => false
    end.

(** [isTypeSafeIndex].  The recursion follows base constraints and is
    bounded by nothing but the call stack: [stack] frames are available,
    and the engine's RangeError when they run out is thrown like any
    other error. *)
Fixpoint isTypeSafeIndex (stack : nat) (indexType objectType : tsType)
         (checker : TypeChecker) : result bool :=
  match stack with
  | O => Thrown
  | S stack' =>
      if has_flag indexType TypeFlags.Number then Ok false
      else if isNumberLiteral indexType then Ok false
      else
        isArr <- isArrayType checker objectType ;;
        isArrOrTuple <- (if isArr : bool then Ok true
                         else isTupleType checker objectType) ;;
        if isArrOrTuple : bool then Ok false
        else if isEnumType indexType then Ok true
        else if isUnion indexType &&
                forallb (fun t => isStringLiteral t || isNumberLiteral t ||
                                  isEnumType t) (types indexType)
        then Ok true
        else if isStringLiteral indexType then Ok true
        else
          indexBaseConstraint <- getBaseConstraintOfType checker indexType ;;
          match indexBaseConstraint with
          | Some c =>
              if negb (tid c =? tid indexType)%nat
              then isTypeSafeIndex stack' c objectType checker
              else
                properties <- getPropertiesOfType checker objectType ;;
                if (properties =? 0)%nat then Ok false else Ok false
          | None =>
              properties <- getPropertiesOfType checker objectType ;;
              if (properties =? 0)%nat then Ok false else Ok false
          end
  end.

(** The body of the [try] block of [isSafeKeyAccess]: every query into
    the type checker for one access. *)
Definition queryTypes (stack : nat) (node : loc) (services : ParserServices)
  : result bool :=
  checker <- match program services with
             | Some p => getTypeChecker p
             | None => Thrown
             end ;;
  tsNode <- esTreeNodeToTSNodeMap_get services (path_of node) ;;
  match tsNode with
  | None => Ok false
  | Some tsNode =>
      if negb (isElementAccessExpression tsNode) then Ok false
      else
        objectType <- getTypeAtLocation checker (expression tsNode) ;;
        indexType <- getTypeAtLocation checker (argumentExpression tsNode) ;;
        isTypeSafeIndex stack indexType objectType checker
  end.

(** [isSafeKeyAccess]: the answer of the oracle for a member expression. *)
Definition isSafeKeyAccess (stack : nat) (node : loc)
           (services : option ParserServices) : bool :=
  match services with
  | None => false
  | Some services =>
      match here node with
      | MemberExpression _ property computed _ =>
          if negb computed then false
          else
            match property with
            | Identifier _ => catch_false (queryTypes stack node services)
            | _ => false
            end
      | _ => false
      end
  end.

End TS.

(** ** The rule: binding tracker, listeners and the run over a file *)

Module Engine.
Import Rule TS.

(** A definition of a scope variable: the type of the defining node and
    the reference to it. *)
Record definition : Type := Definition_ {
  def_node_type : string;
  def_node : path
}.

Record variable : Type := Variable_ {
  var_name : string;
  defs : list definition
}.

(** A scope is its [variables]; the chain [scope], [scope.upper], ... is
    the list of the scopes, innermost first. *)
Definition scope := list variable.

(** What the host hands to the rule: the scope of every node, and the
    parser services ([ESLintUtils.getParserServices(context)] returns
    them or throws). *)
Record context : Type := {
  getScope : path -> list scope;
  getParserServices : result ParserServices;
  stack : nat
}.

Record diagnostic : Type := Report {
  node : loc;
  messageId : string
}.

Definition unsafe_access (n : loc) : diagnostic :=
  Report n "issue:unsafe-access".

(** [arrayIndexDeclarations]: the set of the registered declarators. *)
Definition declarations := list path.

Definition has (s : declarations) (p : path) : bool := existsb (path_eqb p) s.

(** The services the rule keeps: only those with a program. *)
Definition services_of (ctx : context) : option ParserServices :=
  match getParserServices ctx with
  | Ok parserServices =>
      match program parserServices with
      | Some _ => Some parserServices
      | None => None
      end
  | Thrown => None
  end.

(** [isArrayIndexVariable]: walks the scope chain outwards and decides at
    the first variable of that name. *)
Fixpoint lookup (name : string) (chain : list scope)
         (arrayIndexDeclarations : declarations) : bool :=
  match chain with
  | [] => false
  | currentScope :: upper =>
      match find (fun v => var_name v =? name) currentScope with
      | Some v =>
          existsb
            (fun def =>
               (def_node_type def =? "VariableDeclarator") &&
               has arrayIndexDeclarations (def_node def))
            (defs v)
      | None => lookup name upper arrayIndexDeclarations
      end
  end.

Definition isArrayIndexVariable (ctx : context) (node : loc)
           (arrayIndexDeclarations : declarations) : bool :=
  match here node with
  | Identifier name =>
      lookup name (getScope ctx (path_of node)) arrayIndexDeclarations
  | _ => false
  end.

Section Listeners.
Variable ctx : context.
Let services := services_of ctx.

(** Listener [VariableDeclarator]. *)
Definition onVariableDeclarator (node : loc)
           (arrayIndexDeclarations : declarations) : declarations :=
  match here node with
  | VariableDeclarator (Identifier _) (Some (MemberExpression _ _ _ _ as i)) =>
      if isArrayIndexAccess i then
        if isSafeKeyAccess (stack ctx) (sub node FInit i) services
        then arrayIndexDeclarations
        else path_of node :: arrayIndexDeclarations
      else arrayIndexDeclarations
  | _ => arrayIndexDeclarations
  end.

(** Listener [MemberExpression]. *)
Definition onMemberExpression (node : loc) : list diagnostic :=
  match here node with
  | MemberExpression _ _ _ _ =>
      if negb (isArrayIndexAccess (here node)) then []
      else
        let parent := parent node in
        let variableName := getArrayIndexVariableName node in
        if truthy variableName then []
        else if isSafeKeyAccess (stack ctx) node services then []
        else if isInsideSafeForLoop node then []
        else
          let expressionKey := getArrayIndexAccessKey (here node) in
          if truthy expressionKey &&
             match expressionKey with
             | Some k => isInsideNullCheckedBlockExpression node k
             | None => false
             end
          then []
          else if isUnsafePropertyAccess node parent
          then [unsafe_access node]
          else if isUnsafeFunctionCall node parent
          then [unsafe_access node]
          else []
  | _ => []
  end.

(** Listener [MemberExpression[object.type="Identifier"]]. *)
Definition onMemberOfIdentifier (node : loc)
           (arrayIndexDeclarations : declarations) : list diagnostic :=
  match here node with
  | MemberExpression (Identifier name as o) _ _ _ =>
      let objectNode := sub node FObject o in
      if isArrayIndexVariable ctx objectNode arrayIndexDeclarations then
        if hasOptionalChaining node then []
        else if isInsideNullCheckedBlock node name then []
        else [unsafe_access objectNode]
      else []
  | _ => []
  end.

(** Listener [CallExpression[callee.type="Identifier"]]. *)
Definition onCallOfIdentifier (node : loc)
           (arrayIndexDeclarations : declarations) : list diagnostic :=
  match here node with
  | CallExpression (Identifier name as c) _ _ =>
      let calleeNode := sub node FCallee c in
      if isArrayIndexVariable ctx calleeNode arrayIndexDeclarations then
        if isInsideNullCheckedBlock node name then []
        else [unsafe_access calleeNode]
      else []
  | _ => []
  end.

(** Entering one node: every listener whose selector matches it, the
    less specific selector first. *)
Definition enter (node : loc) (arrayIndexDeclarations : declarations)
  : declarations * list diagnostic :=
  (onVariableDeclarator node arrayIndexDeclarations,
   onMemberExpression node ++
   onMemberOfIdentifier node arrayIndexDeclarations ++
   onCallOfIdentifier node arrayIndexDeclarations).

(** The traversal threads the set through the nodes in the order the
    host enters them and collects the reports in the order they are
    made. *)
Fixpoint traverse (arrayIndexDeclarations : declarations) (nodes : list loc)
  : list diagnostic :=
  match nodes with
  | [] => []
  | n :: rest =>
      let (decls, reports) := enter n arrayIndexDeclarations in
      reports ++ traverse decls rest
  end.

(** One run of the rule over a file: [create] starts from the empty
    set. *)
Definition run (ast : AST.node) : list diagnostic :=
  traverse [] (visit [] ast).
End Listeners.

(** The number of reports anchored at a node. *)
Definition reports_at (U : loc) (ds : list diagnostic) : nat :=
  List.length (filter (fun d => same_node (node d) U) ds).

(** The reports as the host shows them: where, and which message. *)
Definition anchors (ds : list diagnostic) : list (path * string) :=
  map (fun d => (path_of (node d), messageId d)) ds.

(** The uses of an access the rule looks at: a property read directly
    off it, or a direct call of it. *)
Definition isDirectUse (node : loc) : bool :=
  match parent node with
  | Some p =>
      match here p with
      | MemberExpression o _ _ _ => same_node (sub p FObject o) node
      | CallExpression c _ _ => same_node (sub p FCallee c) node
      | _ => false
      end
  | None => false
  end.

(** Optional chaining at a use: on the property read, or on the called
    access, or a chain wrapper above. *)
Definition isOptionalUse (node : loc) : bool :=
  match parent node with
  | Some p =>
      match here p with
      | MemberExpression _ _ _ _ => hasOptionalChaining p
      | CallExpression _ _ _ => hasOptionalChaining node
      | _ => false
      end
  | None => false
  end.

(** The guards keyed by the identity of the access. *)
Definition isIdentityGuarded (node : loc) : bool :=
  match getArrayIndexAccessKey (here node) with
  | Some k => truthy (Some k) && isInsideNullCheckedBlockExpression node k
  | None => false
  end.

(** Every guard the listener for member expressions consults. *)
Definition isGuarded (node : loc) : bool :=
  isInsideSafeForLoop node || isIdentityGuarded node ||
  isOptionalUse node || isInsideNullCheck node.

(** The same host without the type-checking capability. *)
Definition syntaxOnly (ctx : context) : context :=
  {| getScope := getScope ctx;
     getParserServices := Thrown;
     stack := stack ctx |}.

(** The set of registered declarators after the nodes have been entered. *)
Fixpoint registered (ctx : context) (arrayIndexDeclarations : declarations)
         (nodes : list loc) : declarations :=
  match nodes with
  | [] => arrayIndexDeclarations
  | n :: rest =>
      registered ctx (onVariableDeclarator ctx n arrayIndexDeclarations) rest
  end.

End Engine.

(** ** The guards as the specification words them *)

Module Spec.
Import Rule.

(** The right operand of a nullish check: a [null] or [undefined]
    literal. *)
Definition isNullishLiteral (r : node) : bool :=
  match r with
  | Literal LNull => true
  | Identifier name => name =? "undefined"
  | _ => false
  end.

(** A nullish check of the access with identity [S]: a truthiness test,
    a negated one, a comparison against [null] or [undefined], or a
    conjunction or disjunction one side of which is a nullish check. *)
Fixpoint nullishCheck (S : string) (test : node) : bool :=
  match test with
  | MemberExpression _ _ _ _ => key_is (getArrayIndexAccessKey test) S
  | UnaryExpression operator argument =>
      (operator =? "!") && key_is (getArrayIndexAccessKey argument) S
  | BinaryExpression operator l r =>
      isComparison operator && key_is (getArrayIndexAccessKey l) S &&
      isNullishLiteral r
  | LogicalExpression operator l r =>
      ((operator =? "&&") || (operator =? "||")) &&
      (nullishCheck S l || nullishCheck S r)
  | _ => false
  end.

(** [U] is the child of [a] in field [f], or below it. *)
Definition within (U a : loc) (f : field) (c : node) : bool :=
  same_node (sub a f c) U || isDescendant (sub a f c) U.

(** 1. Optional chaining on the access, on its use, or a chain wrapper. *)
Definition optionalChaining (U : loc) : bool :=
  match here U with MemberExpression _ _ _ opt => opt | _ => false end ||
  match parent U with
  | Some p =>
      match here p with
      | MemberExpression _ _ _ opt | CallExpression _ _ opt => opt
      | _ => false
      end
  | None => false
  end ||
  existsb (fun a => match here a with ChainExpression _ => true | _ => false end)
          (ancestors U).

(** 2. [U] is in the right operand of an [&&] whose left operand is [S]. *)
Definition shortCircuitAnd (S : string) (U : loc) : bool :=
  existsb
    (fun a =>
       match here a with
       | LogicalExpression operator l r =>
           (operator =? "&&") && key_is (getArrayIndexAccessKey l) S &&
           within U a FRight r
       | _ => false
       end)
    (ancestors U).

(** 3. [U] sits as the left operand of a [??]. *)
Definition nullishCoalescing (U : loc) : bool :=
  existsb
    (fun a =>
       match here a with
       | LogicalExpression operator l _ =>
           (operator =? "??") && within U a FLeft l
       | _ => false
       end)
    (ancestors U).

(** 4. [U] is in the then-branch of a conditional whose test is a nullish
    check of [S]. *)
Definition guardedBranch (S : string) (U : loc) : bool :=
  existsb
    (fun a =>
       match here a with
       | IfStatement test consequent _ =>
           nullishCheck S test && within U a FConsequent consequent
       | _ => false
       end)
    (ancestors U).

(** 5. [U] is in the test or the consequent of a ternary. *)
Definition ternaryBranch (U : loc) : bool :=
  existsb
    (fun a =>
       match here a with
       | ConditionalExpression t c _ =>
           within U a FTest t || within U a FConsequent c
       | _ => false
       end)
    (ancestors U).

(** 6. A statement before the statement of [U], in the same block, is an
    [if] with a nullish check of [S] whose consequent exits. *)
Definition earlyExit (S : string) (U : loc) : bool :=
  match previousStatements U with
  | Some prev =>
      existsb
        (fun s =>
           match here s with
           | IfStatement test consequent _ =>
               nullishCheck S test && hasEarlyExit consequent
           | _ => false
           end)
        prev
  | None => false
  end.

(** 7. A statement before is [if (!S)] with a consequent that assigns
    to [S]. *)
Definition lazyInitialization (S : string) (U : loc) : bool :=
  match previousStatements U with
  | Some prev =>
      existsb
        (fun s =>
           match here s with
           | IfStatement (UnaryExpression operator argument) consequent _ =>
               (operator =? "!") && key_is (getArrayIndexAccessKey argument) S
               && hasAssignmentToExpression consequent S
           | _ => false
           end)
        prev
  | None => false
  end.

(** 8. Loop-bound narrowing: the key of [U] is the identifier [i], an
    enclosing [for] has the test [i < arr.length] or
    [i <= arr.length - 1], and the object of [U] is the expression
    [arr]. *)
Definition lengthOf (arr : node) : node :=
  MemberExpression arr (Identifier "length") false false.

Definition loopTest (i : string) (arr test : node) : Prop :=
  test = BinaryExpression "<" (Identifier i) (lengthOf arr) \/
  test = BinaryExpression "<=" (Identifier i)
           (BinaryExpression "-" (lengthOf arr) (Literal (LNumber 1))).

Definition loopBound (U : loc) : Prop :=
  exists obj i computed optional F init test update body,
    here U = MemberExpression obj (Identifier i) computed optional /\
    In F (ancestors U) /\
    here F = ForStatement init (Some test) update body /\
    loopTest i obj test.

(** Some guard of the list applies to the access [U]. *)
Definition guarded (U : loc) : Prop :=
  optionalChaining U = true \/ nullishCoalescing U = true \/
  ternaryBranch U = true \/ loopBound U \/
  exists S, getArrayIndexAccessKey (here U) = Some S /\
            (shortCircuitAnd S U = true \/ guardedBranch S U = true \/
             earlyExit S U = true \/ lazyInitialization S U = true).

End Spec.

(** ** Programs and hosts used as instances *)

Module Examples.
Import Rule TS Engine.

(** A host with no type information and no scopes. *)
Definition syntaxHost : context :=
  {| getScope := fun _ => []; getParserServices := Thrown; stack := 64 |}.

Definition index (o k : AST.node) : AST.node := MemberExpression o k true false.
Definition dot (o : AST.node) (k : string) : AST.node :=
  MemberExpression o (Identifier k) false false.
Definition zero : AST.node := Literal (LNumber 0).
Definition const (x : string) (i : AST.node) : AST.node :=
  VariableDeclaration "const" [VariableDeclarator (Identifier x) (Some i)].
Definition throws : AST.node :=
  BlockStatement [ThrowStatement (Identifier "e")].

(** [arr[0]] *)
Definition arr0 : AST.node := index (Identifier "arr") zero.

(** [arr[0].x;] *)
Definition bareUse : AST.node := Program [ExpressionStatement (dot arr0 "x")].
Definition bareUse_access : loc :=
  Loc arr0 [(dot arr0 "x", FObject);
            (ExpressionStatement (dot arr0 "x"), FExpression);
            (bareUse, FBody 0)].

(** [if (test) { arr[0].x; }] *)
Definition underIf (test : AST.node) : AST.node :=
  Program [IfStatement test
             (BlockStatement [ExpressionStatement (dot arr0 "x")]) None].
Definition underIf_access (test : AST.node) : loc :=
  let s := ExpressionStatement (dot arr0 "x") in
  Loc arr0 [(dot arr0 "x", FObject); (s, FExpression);
            (BlockStatement [s], FBody 0);
            (IfStatement test (BlockStatement [s]) None, FConsequent);
            (underIf test, FBody 0)].


(** [if (!arr[0]) { throw e; } arr[0].x;] *)
Definition negatedExit : AST.node :=
  Program [IfStatement (UnaryExpression "!" arr0) throws None;
           ExpressionStatement (dot arr0 "x")].

(** [const item = arr[0]; if (!item) { throw e; } item.x;] with the scope
    the host computes for it: one scope declaring [item]. *)
Definition negatedExitVariable : AST.node :=
  Program [const "item" arr0;
           IfStatement (UnaryExpression "!" (Identifier "item")) throws None;
           ExpressionStatement (dot (Identifier "item") "x")].
Definition itemScope : scope :=
  [Variable_ "item" [Definition_ "VariableDeclarator" [FDeclarations 0; FBody 0]]].
Definition itemHost : context :=
  {| getScope := fun _ => [itemScope];
     getParserServices := Thrown; stack := 64 |}.

(** [for (; test; ) { obj[i].x; }] *)
Definition loopOver (test obj : AST.node) : AST.node :=
  Program [ForStatement None (Some test) None
             (BlockStatement
                [ExpressionStatement (dot (index obj (Identifier "i")) "x")])].
Definition loopOver_access (test obj : AST.node) : loc :=
  let a := index obj (Identifier "i") in
  let s := ExpressionStatement (dot a "x") in
  Loc a [(dot a "x", FObject); (s, FExpression);
         (BlockStatement [s], FBody 0);
         (ForStatement None (Some test) None (BlockStatement [s]), FLoopBody);
         (loopOver test obj, FBody 0)].

Definition leLength (obj : AST.node) : AST.node :=
  BinaryExpression "<=" (Identifier "i") (dot obj "length").

(** [const fare = fares[0]; function calcFare(fare) { return fare.get(); }]
    with the scopes the host computes: the function scope declares the
    parameter [fare], the outer scope the variable [fare]. *)
Definition fareUse : AST.node :=
  CallExpression (dot (Identifier "fare") "get") [] false.
Definition calcFare : AST.node :=
  Other "FunctionDeclaration"
        [Identifier "calcFare"; Identifier "fare";
         BlockStatement [ReturnStatement (Some fareUse)]].
Definition shadowed : AST.node :=
  Program [const "fare" (index (Identifier "fares") zero); calcFare].
Definition outerScope : scope :=
  [Variable_ "fare" [Definition_ "VariableDeclarator" [FDeclarations 0; FBody 0]];
   Variable_ "calcFare" [Definition_ "FunctionDeclaration" [FBody 1]]].
Definition fare_in_function : loc :=
  let m := dot (Identifier "fare") "get" in
  let r := ReturnStatement (Some fareUse) in
  Loc (Identifier "fare")
      [(m, FObject); (fareUse, FCallee); (r, FArgument);
       (BlockStatement [r], FBody 0); (calcFare, FChildren 2);
       (shadowed, FBody 1)].

(** A host with type information: [map[key].get()] where the type of
    [key] is an enum and the type of [map] a record over it. *)
Definition enumKey : tsType :=
  Type_ 1 (TypeFlags.EnumLiteral + TypeFlags.Union)
        [Type_ 2 (TypeFlags.EnumLiteral + TypeFlags.StringLiteral) [] None;
         Type_ 3 (TypeFlags.EnumLiteral + TypeFlags.StringLiteral) [] None]
        None.
Definition recordType : tsType := Type_ 4 524288 [] None.
Definition numberType : tsType := Type_ 5 TypeFlags.Number [] None.
Definition arrayType : tsType := Type_ 6 524288 [] None.

Definition checkerOf (objectType indexType : tsType) : TypeChecker :=
  {| getTypeAtLocation := fun r => if (r =? 0)%nat then Ok objectType
                                   else Ok indexType;
     isArrayType := fun t => Ok (tid t =? 6)%nat;
     isTupleType := fun _ => Ok false;
     getBaseConstraintOfType := fun t => Ok (Some t);
     getPropertiesOfType := fun _ => Ok 2 |}.

Definition servicesOf (checker : result TypeChecker) : ParserServices :=
  {| program := Some {| getTypeChecker := checker |};
     esTreeNodeToTSNodeMap_get := fun _ => Ok (Some (TsNode true 0 1)) |}.

Definition typedHost (checker : result TypeChecker) : context :=
  {| getScope := fun _ => [];
     getParserServices := Ok (servicesOf checker); stack := 64 |}.

(** [map[key].get();] *)
Definition keyed : AST.node := index (Identifier "map") (Identifier "key").
Definition keyedUse : AST.node :=
  Program [ExpressionStatement (CallExpression (dot keyed "get") [] false)].
Definition keyed_access : loc :=
  let m := dot keyed "get" in
  let c := CallExpression m [] false in
  Loc keyed [(m, FObject); (c, FCallee);
             (ExpressionStatement c, FExpression); (keyedUse, FBody 0)].

(** [obj['foo'].x;] *)
Definition staticKeyed : AST.node :=
  index (Identifier "obj") (Literal (LString "foo")).
Definition staticUse : AST.node :=
  Program [ExpressionStatement (dot staticKeyed "x")].
Definition staticUse_access : loc :=
  Loc staticKeyed [(dot staticKeyed "x", FObject);
                   (ExpressionStatement (dot staticKeyed "x"), FExpression);
                   (staticUse, FBody 0)].

(** [map[Format.A].get();] *)
Definition memberKeyed : AST.node :=
  index (Identifier "map") (dot (Identifier "Format") "A").
Definition memberKeyedUse : AST.node :=
  Program [ExpressionStatement (CallExpression (dot memberKeyed "get") [] false)].
Definition memberKeyed_access : loc :=
  let m := dot memberKeyed "get" in
  let c := CallExpression m [] false in
  Loc memberKeyed [(m, FObject); (c, FCallee);
                   (ExpressionStatement c, FExpression);
                   (memberKeyedUse, FBody 0)].

(** The concrete scenarios of the specification. *)
Definition toString (x : AST.node) : AST.node :=
  CallExpression (dot x "toString") [] false.
Definition arrayOf (l : list AST.node) : AST.node := Other "ArrayExpression" l.
Definition constArr : AST.node :=
  const "arr" (arrayOf [Literal (LNumber 1); Literal (LNumber 2);
                        Literal (LNumber 3)]).

(** [const arr=[1,2,3]; const v=arr[0].toString();] *)
Definition scenario1 : AST.node := Program [constArr; const "v" (toString arr0)].

(** [const arr=[1,2,3]; if(arr[0]){arr[0].toString();}] *)
Definition scenario2 : AST.node :=
  Program [constArr;
           IfStatement arr0
             (BlockStatement [ExpressionStatement (toString arr0)]) None].

(** [const arr=[1,2,3]; if(arr[0]){} arr[0].toString();] *)
Definition scenario3 : AST.node :=
  Program [constArr; IfStatement arr0 (BlockStatement []) None;
           ExpressionStatement (toString arr0)].

(** [const ports=[{id:1}]; const p=ports[0]; if(p==null){throw e;}
    p.id=123;] and its scope. *)
Definition scenario4 : AST.node :=
  Program [const "ports" (arrayOf [Other "ObjectExpression" []]);
           const "p" (index (Identifier "ports") zero);
           IfStatement (BinaryExpression "==" (Identifier "p") (Literal LNull))
                       throws None;
           ExpressionStatement
             (AssignmentExpression "=" (dot (Identifier "p") "id")
                                   (Literal (LNumber 123)))].
Definition scenario4Host : context :=
  {| getScope := fun _ =>
       [[Variable_ "ports"
           [Definition_ "VariableDeclarator" [FDeclarations 0; FBody 0]];
         Variable_ "p"
           [Definition_ "VariableDeclarator" [FDeclarations 0; FBody 1]]]];
     getParserServices := Thrown; stack := 64 |}.

(** [const m=[[1,2],[3,4]]; const v=m[0][0].toString();] *)
Definition scenario5 : AST.node :=
  Program [const "m" (arrayOf [arrayOf []; arrayOf []]);
           const "v" (toString (index (index (Identifier "m") zero) zero))].

(** [const item = arr[0]; if (null !== item) { item.x; }] *)
Definition reversedVariable : AST.node :=
  Program [const "item" arr0;
           IfStatement
             (BinaryExpression "!==" (Literal LNull) (Identifier "item"))
             (BlockStatement [ExpressionStatement (dot (Identifier "item") "x")])
             None].

(** [item.x; const item = arr[0];]: the use comes first. *)
Definition useFirst : AST.node :=
  Program [ExpressionStatement (dot (Identifier "item") "x");
           const "item" arr0].
Definition useFirstHost : context :=
  {| getScope := fun _ =>
       [[Variable_ "item"
           [Definition_ "VariableDeclarator" [FDeclarations 0; FBody 1]]]];
     getParserServices := Thrown; stack := 64 |}.
Definition useFirst_member : loc :=
  Loc (dot (Identifier "item") "x")
      [(ExpressionStatement (dot (Identifier "item") "x"), FExpression);
       (useFirst, FBody 0)].

(** [const item = arr[0]; item.x; item();] *)
Definition plainUses : AST.node :=
  Program [const "item" arr0;
           ExpressionStatement (dot (Identifier "item") "x");
           ExpressionStatement (CallExpression (Identifier "item") [] false)].
Definition plainUses_member : loc :=
  Loc (dot (Identifier "item") "x")
      [(ExpressionStatement (dot (Identifier "item") "x"), FExpression);
       (plainUses, FBody 1)].
Definition plainUses_call : loc :=
  Loc (CallExpression (Identifier "item") [] false)
      [(ExpressionStatement (CallExpression (Identifier "item") [] false),
        FExpression);
       (plainUses, FBody 2)].

(** [const t = map[key]; t.get();] under a host for which [map[key]]
    is exempt. *)
Definition exemptBinding : AST.node :=
  Program [const "t" keyed;
           ExpressionStatement
             (CallExpression (dot (Identifier "t") "get") [] false)].
Definition tScope : scope :=
  [Variable_ "t" [Definition_ "VariableDeclarator" [FDeclarations 0; FBody 0]]].
Definition exemptHost : context :=
  {| getScope := fun _ => [tScope];
     getParserServices := Ok (servicesOf (Ok (checkerOf recordType enumKey)));
     stack := 64 |}.
Definition exemptBinding_use : loc :=
  let m := dot (Identifier "t") "get" in
  let c := CallExpression m [] false in
  Loc (Identifier "t")
      [(m, FObject); (c, FCallee); (ExpressionStatement c, FExpression);
       (exemptBinding, FBody 1)].

(** The read [item.x] in [negatedExitVariable]. *)
Definition negatedExitVariable_member : loc :=
  Loc (dot (Identifier "item") "x")
      [(ExpressionStatement (dot (Identifier "item") "x"), FExpression);
       (negatedExitVariable, FBody 2)].

(** [payload.bindList[0]] *)
Definition bindList0 : AST.node :=
  index (dot (Identifier "payload") "bindList") zero.

(** A checker whose [getPropertiesOfType] throws. *)
Definition checkerWithoutProperties (objectType indexType : tsType)
  : TypeChecker :=
  {| getTypeAtLocation := getTypeAtLocation (checkerOf objectType indexType);
     isArrayType := isArrayType (checkerOf objectType indexType);
     isTupleType := isTupleType (checkerOf objectType indexType);
     getBaseConstraintOfType :=
       getBaseConstraintOfType (checkerOf objectType indexType);
     getPropertiesOfType := fun _ => Thrown |}.
Definition stringType : tsType := Type_ 7 4 [] None.

(** [const item = arr[0]; item && item();]: the call is the right
    operand itself. *)
Definition andCall : AST.node :=
  Program [const "item" arr0;
           ExpressionStatement
             (LogicalExpression "&&" (Identifier "item")
                (CallExpression (Identifier "item") [] false))].

(** The host of [shadowed] if the function did not declare [fare]. *)
Definition unshadowedHost : context :=
  {| getScope := fun _ => [outerScope];
     getParserServices := Thrown; stack := 64 |}.

(** [if (flag) { arr[0].x; }], and the same use through a variable:
    [const item = arr[0]; if (flag) { item.x; }] *)
Definition underFlag : AST.node := underIf (Identifier "flag").
Definition underFlag_access : loc := underIf_access (Identifier "flag").
Definition underFlagVariable : AST.node :=
  Program [const "item" arr0;
           IfStatement (Identifier "flag")
             (BlockStatement
                [ExpressionStatement (dot (Identifier "item") "x")])
             None].
Definition underFlagVariable_use : loc :=
  let s := ExpressionStatement (dot (Identifier "item") "x") in
  Loc (Identifier "item")
      [(dot (Identifier "item") "x", FObject); (s, FExpression);
       (BlockStatement [s], FBody 0);
       (IfStatement (Identifier "flag") (BlockStatement [s]) None, FConsequent);
       (underFlagVariable, FBody 1)].

End Examples.

(** ** The statements under study *)

Module Statements.
Import Rule TS Engine Examples.

(** The claim that a computed access keyed by anything but a bare
    identifier is never exempt and goes on to the flow-based guard rules:
    read or called directly where no guard applies, neither by the tests
    of the rule nor by the list of the specification, it is reported. *)
Definition otherKeysReachGuardRules : Prop :=
  forall (ctx : context) (ast : AST.node) (U : loc)
         (obj key : AST.node) (opt : bool),
    In U (visit [] ast) ->
    here U = MemberExpression obj key true opt ->
    (forall name, key <> Identifier name) ->
    isSafeKeyAccess (stack ctx) U (services_of ctx) = false /\
    (isDirectUse U = true -> isGuarded U = false -> ~ Spec.guarded U ->
     reports_at U (run ctx ast) = 1).




(** The oracle fails for an access: the services are missing, or the
    queries for the access throw. *)
Definition oracleFails (ctx : context) (node : loc) : Prop :=
  services_of ctx = None \/
  exists s, services_of ctx = Some s /\
            queryTypes (stack ctx) node s = Thrown.

(** The variable has the name looked up. *)
Definition named (name : string) (v : variable) : bool := var_name v =? name.

(** A definition of the variable is a registered declarator. *)
Definition isRegistered (st : declarations) (def : definition) : bool :=
  (def_node_type def =? "VariableDeclarator") && has st (def_node def).

(** A declarator the rule registers: [x = <access>] with a classified
    access the oracle does not exempt. *)
Definition isBindingDeclarator (ctx : context) (D : loc) : Prop :=
  exists x o p c opt,
    here D = VariableDeclarator (Identifier x)
                                (Some (MemberExpression o p c opt)) /\
    isArrayIndexAccess (MemberExpression o p c opt) = true /\
    isSafeKeyAccess (stack ctx) (sub D FInit (MemberExpression o p c opt))
                    (services_of ctx) = false.

(** The leftmost object of a chain of member expressions. *)
Fixpoint root (n : AST.node) : AST.node :=
  match n with
  | MemberExpression o _ _ _ => root o
  | _ => n
  end.

(** The context guards, by the field through which an ancestor is
    passed: any [if], any [??], any chain wrapper, the right operand of
    an [&&], the test or consequent of a ternary. *)
Definition isContextGuard (a : AST.node) (f : field) : bool :=
  match a with
  | IfStatement _ _ _ | ChainExpression _ => true
  | LogicalExpression operator _ _ =>
      (operator =? "??") ||
      ((operator =? "&&") && match f with FRight => true | _ => false end)
  | ConditionalExpression _ _ _ =>
      match f with FTest | FConsequent => true | _ => false end
  | _ => false
  end.

(** Two checkers that answer alike, except perhaps about the properties
    of a type. *)
Definition sameButProperties (c1 c2 : TypeChecker) : Prop :=
  (forall r, getTypeAtLocation c1 r = getTypeAtLocation c2 r) /\
  (forall t, isArrayType c1 t = isArrayType c2 t) /\
  (forall t, isTupleType c1 t = isTupleType c2 t) /\
  (forall t, getBaseConstraintOfType c1 t = getBaseConstraintOfType c2 t).

(** The key type is drawn from a finite set of keys: an enum, a union
    of literal types, or a string literal. *)
Definition hasFiniteKeys (t : tsType) : bool :=
  isEnumType t ||
  (isUnion t &&
   forallb (fun m => isStringLiteral m || isNumberLiteral m || isEnumType m)
           (types t)) ||
  isStringLiteral t.

(** [w] is [t] or is reached from [t] through base constraints, each
    distinct from the type it constrains. *)
Inductive constraintChain (checker : TypeChecker) : tsType -> tsType -> Prop :=
| chain_here (t : tsType) : constraintChain checker t t
| chain_step (t u w : tsType) :
    getBaseConstraintOfType checker t = Ok (Some u) ->
    tid u <> tid t ->
    constraintChain checker u w ->
    constraintChain checker t w.

Definition isBlock (n : AST.node) : bool :=
  match n with
  | BlockStatement _ | Program _ => true
  | _ => false
  end.

Definition statementsOf (n : AST.node) : list AST.node :=
  match n with
  | BlockStatement body | Program body => body
  | _ => []
  end.

End Statements.

(** ** Facts about the traversal *)

Module Traversal.

Lemma field_eqb_eq (f g : field) : field_eqb f g = true <-> f = g.
Proof.
  destruct f, g; simpl; split; intro H;
    try discriminate; try reflexivity;
    try (apply Nat.eqb_eq in H; subst; reflexivity);
    try (injection H as ->; apply Nat.eqb_refl).
Qed.

Lemma path_eqb_eq (p q : path) : path_eqb p q = true <-> p = q.
Proof.
  revert q; induction p as [|f p IH]; intros [|g q]; simpl;
    split; intro H; try discriminate; try reflexivity.
  - apply andb_true_iff in H as [Hf Hp].
    apply field_eqb_eq in Hf. apply IH in Hp. now subst.
  - injection H as -> ->. apply andb_true_iff; split.
    + now apply field_eqb_eq.
    + now apply IH.
Qed.

Lemma path_eqb_refl (p : path) : path_eqb p p = true.
Proof. now apply path_eqb_eq. Qed.

Lemma path_eqb_neq (p q : path) : p <> q -> path_eqb p q = false.
Proof.
  intro H. destruct (path_eqb p q) eqn:E; [|reflexivity].
  apply path_eqb_eq in E. contradiction.
Qed.

Lemma in_indexed mk i l f c :
  In (f, c) (indexed mk i l) -> In c l.
Proof.
  revert i; induction l as [|x r IH]; simpl; intros i H; [assumption|].
  destruct H as [H|H]; [injection H as _ ->; now left | right; eauto].
Qed.

Lemma in_indexed_index mk i l f c :
  In (f, c) (indexed mk i l) -> exists j, i <= j /\ f = mk j.
Proof.
  revert i; induction l as [|x r IH]; simpl; intros i H; [contradiction|].
  destruct H as [H|H].
  - injection H as <- _. exists i. split; [lia | reflexivity].
  - apply IH in H as (j & Hj & ->). exists j. split; [lia | reflexivity].
Qed.

(** Induction on a node from its children. *)
Lemma node_children_ind (P : node -> Prop) :
  (forall n, (forall f c, In (f, c) (children n) -> P c) -> P n) ->
  forall n, P n.
Proof.
  intro step. fix IH 1. intro n. apply step.
  assert (lists : forall l : list node,
             (forall x, In x l -> P x) ->
             forall mk i f c, In (f, c) (indexed mk i l) -> P c).
  { intros l Hl mk i f c Hin. apply Hl. eapply in_indexed; eassumption. }
  destruct n; simpl; intros f c Hin;
    repeat match goal with
           | o : option node |- _ => destruct o; simpl in Hin
           end;
    repeat match goal with
           | H : _ \/ _ |- _ => destruct H as [H|H]
           | H : False |- _ => destruct H
           | H : (_, _) = (_, _) |- _ => injection H as _ <-; apply IH
           end.
  all: eapply lists; [|eassumption]; clear Hin; apply Forall_forall;
    match goal with
    | l : list node |- _ =>
        induction l as [|x r IHr]; constructor; [apply IH | exact IHr]
    end.
Qed.

Lemma visit_items (V : list (node * field) -> node -> list loc)
      (n : node) (u : list (node * field)) (mk : nat -> field)
      (l : list node) (i : nat) :
  (fix go (i : nat) (l : list node) : list loc :=
     match l with
     | [] => []
     | x :: r => V ((n, mk i) :: u) x ++ go (S i) r
     end) i l
  = flat_map (fun fc => V ((n, fst fc) :: u) (snd fc)) (indexed mk i l).
Proof.
  revert i; induction l as [|x r IH]; intro i; simpl; [reflexivity|].
  now rewrite IH.
Qed.

(** The traversal enters a node, then the subtrees of its children. *)
Lemma visit_eq (u : list (node * field)) (n : node) :
  visit u n =
  Loc n u :: flat_map (fun fc => visit ((n, fst fc) :: u) (snd fc)) (children n).
Proof.
  destruct n; simpl; f_equal;
    repeat match goal with
           | o : option node |- _ => destruct o; simpl
           end;
    rewrite ?app_nil_r, <- ?app_assoc; try reflexivity;
    try (f_equal; apply visit_items with (V := visit));
    try (apply visit_items with (V := visit)).
Qed.

(** Every node reached below [n] has the ancestors of [n] above it. *)
Lemma visit_up (l : loc) (n : node) :
  forall u, In l (visit u n) -> exists v, up l = v ++ u.
Proof.
  induction n as [n IH] using node_children_ind. intros u H.
  rewrite visit_eq in H. destruct H as [<-|H].
  - now exists [].
  - apply in_flat_map in H as ([f c] & Hc & H). simpl in H.
    apply (IH f c Hc) in H as [v Hv].
    exists (v ++ [(n, f)]). now rewrite <- app_assoc.
Qed.

Lemma children_fields (n : node) : NoDup (map fst (children n)).
Proof.
  assert (idx : forall mk, (forall i j, mk i = mk j -> i = j) ->
                forall l i, NoDup (map fst (indexed mk i l)) /\
                            forall f, In f (map fst (indexed mk i l)) ->
                                      exists j, i <= j /\ f = mk j).
  { intros mk inj l; induction l as [|x r IH]; intro i; simpl.
    - split; [constructor | contradiction].
    - destruct (IH (S i)) as [ND Hin]. split.
      + constructor; [|assumption]. intro H. apply Hin in H as (j & Hj & E).
        apply inj in E. lia.
      + intros f [<-|H]; [exists i; split; [lia|reflexivity]|].
        apply Hin in H as (j & Hj & ->). exists j; split; [lia|reflexivity]. }
  destruct n; simpl;
    repeat match goal with
           | o : option node |- _ => destruct o; simpl
           end;
    repeat (constructor; simpl;
            [intuition discriminate|]);
    try constructor;
    try (apply idx; intros i j E; now injection E).
  intro H. apply (idx FArguments) in H as (j & _ & E);
    [discriminate | intros i j E; now injection E].
Qed.

Lemma visit_child_path (l : loc) (n c : node) (f : field)
      (u : list (node * field)) :
  In l (visit ((n, f) :: u) c) ->
  exists q, path_of l = q ++ f :: map snd u.
Proof.
  intro H. apply visit_up in H as [v Hv]. exists (map snd v).
  unfold path_of. rewrite Hv, map_app. reflexivity.
Qed.

(** No two nodes of a traversal share a reference. *)
Lemma visit_NoDup (n : node) :
  forall u, NoDup (map path_of (visit u n)).
Proof.
  induction n as [n IH] using node_children_ind. intro u.
  rewrite visit_eq. simpl. constructor.
  - intro H. apply in_map_iff in H as (l & E & H).
    apply in_flat_map in H as ([f c] & _ & H). simpl in H.
    apply visit_child_path in H as [q Hq]. rewrite Hq in E.
    unfold path_of in E. simpl in E.
    apply (f_equal (@List.length field)) in E.
    rewrite length_app in E. simpl in E. lia.
  - pose proof (children_fields n) as ND.
    revert IH ND. generalize (children n) as L.
    induction L as [|[f c] L IHL]; intros IH ND; simpl; [constructor|].
    inversion ND as [|? ? Hf ND']; subst.
    rewrite map_app. apply NoDup_app.
    + apply (IH f c). now left.
    + apply IHL; [|assumption]. intros g d Hd. apply (IH g d). now right.
    + intros p H1 H2.
      apply in_map_iff in H1 as (l1 & E1 & H1).
      apply in_map_iff in H2 as (l2 & E2 & H2).
      apply in_flat_map in H2 as ([g d] & Hd & H2). simpl in H2.
      apply visit_child_path in H1 as [q1 Hq1].
      apply visit_child_path in H2 as [q2 Hq2].
      rewrite <- E2, Hq1, Hq2 in E1.
      change (q1 ++ [f] ++ map snd u = q2 ++ [g] ++ map snd u) in E1.
      rewrite !app_assoc in E1. apply app_inv_tail in E1.
      apply app_inj_tail in E1 as [_ ->].
      apply Hf. apply in_map_iff. now exists (g, d).
Qed.

(** Two visited nodes with the same reference are the same node. *)
Lemma visit_same_node (n : node) (u : list (node * field)) (a b : loc) :
  In a (visit u n) -> In b (visit u n) -> same_node a b = true -> a = b.
Proof.
  intros Ha Hb E. apply path_eqb_eq in E.
  pose proof (visit_NoDup n u) as ND.
  apply in_split in Ha as (l1 & l2 & Hl). rewrite Hl in *.
  rewrite map_app in ND. simpl in ND.
  apply in_app_or in Hb as [Hb|[Hb|Hb]]; [| assumption |].
  - exfalso. apply NoDup_remove_2 in ND. apply ND.
    apply in_or_app. left. apply in_map_iff. exists b. now split.
  - exfalso. apply NoDup_remove_2 in ND. apply ND.
    apply in_or_app. right. apply in_map_iff. exists b. now split.
Qed.

(** The children of a visited node are visited. *)
Lemma visit_sub (n : node) (l : loc) (f : field) (c : node) :
  forall u, In l (visit u n) -> In (f, c) (children (here l)) ->
            In (sub l f c) (visit u n).
Proof.
  induction n as [n IH] using node_children_ind. intros u H Hc.
  rewrite visit_eq in H |- *. destruct H as [<-|H].
  - right. apply in_flat_map. exists (f, c). split; [assumption|].
    simpl. rewrite visit_eq. now left.
  - right. apply in_flat_map in H as ([g d] & Hd & H). simpl in H.
    apply in_flat_map. exists (g, d). split; [assumption|].
    simpl. now apply (IH g d Hd).
Qed.

End Traversal.

(** ** Facts about the reports of a run *)

Module Reports.
Import Rule TS Engine Traversal.

Lemma reports_at_app (U : loc) (a b : list diagnostic) :
  reports_at U (a ++ b) = reports_at U a + reports_at U b.
Proof. unfold reports_at. now rewrite filter_app, length_app. Qed.

Lemma same_node_refl (a : loc) : same_node a a = true.
Proof. apply path_eqb_refl. Qed.

Lemma reports_at_none (U : loc) (ds : list diagnostic) :
  (forall d, In d ds -> same_node (node d) U = false) -> reports_at U ds = 0.
Proof.
  unfold reports_at. induction ds as [|d r IH]; intro H; simpl; [reflexivity|].
  rewrite (H d (or_introl eq_refl)). apply IH. intros. apply H. now right.
Qed.

(** The listener for member expressions reports at the node entered. *)
Lemma onMemberExpression_node (ctx : context) (l : loc) (d : diagnostic) :
  In d (onMemberExpression ctx l) -> d = unsafe_access l.
Proof.
  unfold onMemberExpression. intro H.
  repeat match type of H with
         | In _ (match ?x with _ => _ end) => destruct x
         | In _ (if ?x then _ else _) => destruct x
         | In _ [] => destruct H
         | In _ [_] => destruct H as [H|[]]; now subst
         end.
Qed.

Lemma onMemberExpression_length (ctx : context) (l : loc) :
  reports_at l (onMemberExpression ctx l)
  = List.length (onMemberExpression ctx l).
Proof.
  unfold reports_at. f_equal.
  assert (H : forall d, In d (onMemberExpression ctx l) -> d = unsafe_access l)
    by apply onMemberExpression_node.
  induction (onMemberExpression ctx l) as [|d r IH]; simpl; [reflexivity|].
  rewrite (H d (or_introl eq_refl)). simpl. rewrite same_node_refl.
  f_equal. apply IH. intros. apply H. now right.
Qed.

(** The listeners for uses of a variable report at an identifier that is
    a child of the node entered. *)
Lemma onMemberOfIdentifier_node (ctx : context) (l : loc) (st : declarations)
      (d : diagnostic) :
  In d (onMemberOfIdentifier ctx l st) ->
  exists name, In (FObject, Identifier name) (children (here l)) /\
               node d = sub l FObject (Identifier name) /\
               isArrayIndexVariable ctx (node d) st = true.
Proof.
  unfold onMemberOfIdentifier. intro H.
  destruct (here l) as [| |o p c opt| | | | | | | | | | | | | | | | |];
    try destruct H.
  destruct o; try destruct H.
  destruct (isArrayIndexVariable ctx _ st) eqn:E; [|destruct H].
  destruct (hasOptionalChaining l); [destruct H|].
  destruct (isInsideNullCheckedBlock l name); [destruct H|].
  destruct H as [<-|[]]. exists name. simpl. auto.
Qed.

Lemma onCallOfIdentifier_node (ctx : context) (l : loc) (st : declarations)
      (d : diagnostic) :
  In d (onCallOfIdentifier ctx l st) ->
  exists name, In (FCallee, Identifier name) (children (here l)) /\
               node d = sub l FCallee (Identifier name) /\
               isArrayIndexVariable ctx (node d) st = true.
Proof.
  unfold onCallOfIdentifier. intro H.
  destruct (here l) as [| | |c a opt| | | | | | | | | | | | | | | |];
    try destruct H.
  destruct c; try destruct H.
  destruct (isArrayIndexVariable ctx _ st) eqn:E; [|destruct H].
  destruct (isInsideNullCheckedBlock l name); [destruct H|].
  destruct H as [<-|[]]. exists name. simpl. auto.
Qed.

Section OneFile.
Variable ctx : context.
Variable ast : AST.node.

(** Reports at a node that is not an identifier come from the listener
    for member expressions, entered once. *)
Lemma reports_at_member_nodes (U : loc) (locs : list loc) :
  In U (visit [] ast) -> (forall s, here U <> Identifier s) ->
  (forall l, In l locs -> In l (visit [] ast)) -> NoDup locs ->
  forall st,
    (In U locs ->
     reports_at U (traverse ctx st locs)
     = List.length (onMemberExpression ctx U)) /\
    (~ In U locs -> reports_at U (traverse ctx st locs) = 0).
Proof.
  intros HU Hid. induction locs as [|l r IH]; intros Hin ND st.
  - split; [intros [] | reflexivity].
  - inversion ND as [|? ? Hl ND']; subst.
    assert (Hr : forall x, In x r -> In x (visit [] ast))
      by (intros; apply Hin; now right).
    specialize (IH Hr ND').
    assert (Hl' : In l (visit [] ast)) by (apply Hin; now left).
    simpl. rewrite !reports_at_app.
    assert (E1 : reports_at U (onMemberOfIdentifier ctx l st) = 0).
    { apply reports_at_none. intros d Hd.
      apply onMemberOfIdentifier_node in Hd as (name & Hc & Hd & _).
      destruct (same_node (node d) U) eqn:E; [|reflexivity].
      rewrite Hd in E. apply (visit_same_node ast []) in E;
        [| now apply visit_sub | assumption].
      exfalso. apply (Hid name). now rewrite <- E. }
    assert (E2 : reports_at U (onCallOfIdentifier ctx l st) = 0).
    { apply reports_at_none. intros d Hd.
      apply onCallOfIdentifier_node in Hd as (name & Hc & Hd & _).
      destruct (same_node (node d) U) eqn:E; [|reflexivity].
      rewrite Hd in E. apply (visit_same_node ast []) in E;
        [| now apply visit_sub | assumption].
      exfalso. apply (Hid name). now rewrite <- E. }
    rewrite E1, E2, Nat.add_0_r.
    destruct (same_node l U) eqn:E.
    + apply (visit_same_node ast []) in E; [| assumption | assumption].
      subst l. split; intro H.
      * rewrite onMemberExpression_length.
        destruct (IH (onVariableDeclarator ctx U st)) as [_ IH2].
        rewrite (IH2 Hl). lia.
      * exfalso. apply H. now left.
    + assert (E0 : reports_at U (onMemberExpression ctx l) = 0).
      { apply reports_at_none. intros d Hd.
        apply onMemberExpression_node in Hd. now subst. }
      rewrite E0. simpl.
      assert (Hne : l <> U)
        by (intro; subst; rewrite same_node_refl in E; discriminate).
      destruct (IH (onVariableDeclarator ctx l st)) as [IH1 IH2].
      split; intro H.
      * apply IH1. destruct H; [contradiction | assumption].
      * apply IH2. intro. apply H. now right.
Qed.

Lemma visit_NoDup_locs : NoDup (visit [] ast).
Proof. apply (NoDup_map_inv path_of). apply visit_NoDup. Qed.

Lemma reports_at_member (U : loc) :
  In U (visit [] ast) -> (forall s, here U <> Identifier s) ->
  reports_at U (run ctx ast) = List.length (onMemberExpression ctx U).
Proof.
  intros HU Hid. unfold run.
  destruct (@reports_at_member_nodes U (visit [] ast) HU Hid
              (fun l H => H) visit_NoDup_locs []) as [H _].
  now apply H.
Qed.

End OneFile.

Lemma traverse_ext (ctx1 ctx2 : context) (locs : list loc) :
  (forall l st, In l locs -> enter ctx1 l st = enter ctx2 l st) ->
  forall st, traverse ctx1 st locs = traverse ctx2 st locs.
Proof.
  induction locs as [|l r IH]; intros H st; [reflexivity|].
  pose proof (H l st (or_introl eq_refl)) as E.
  unfold enter in E. injection E as E1 E2.
  unfold traverse, enter; fold traverse. rewrite E1, E2. f_equal.
  apply IH. intros. apply H. now right.
Qed.

(** The reports of a run depend on the host only through the scopes
    and the oracle answers it gives for the nodes of the file. *)
Lemma run_ext (ctx1 ctx2 : context) (ast : AST.node) :
  (forall n, In n (visit [] ast) ->
             getScope ctx1 (path_of n) = getScope ctx2 (path_of n)) ->
  (forall n, In n (visit [] ast) ->
             isSafeKeyAccess (stack ctx1) n (services_of ctx1)
             = isSafeKeyAccess (stack ctx2) n (services_of ctx2)) ->
  run ctx1 ast = run ctx2 ast.
Proof.
  intros Hs Ho. unfold run. apply traverse_ext. intros l st Hl.
  unfold enter. f_equal; [|f_equal; [|f_equal]].
  - unfold onVariableDeclarator.
    destruct (here l) as [| | | | | | | | | | | | | | | | | |id i|] eqn:E;
      try reflexivity.
    destruct id; try reflexivity. destruct i as [i|]; [|reflexivity].
    destruct i; try reflexivity.
    rewrite Ho; [reflexivity|].
    apply visit_sub; [assumption|]. rewrite E. simpl. auto.
  - unfold onMemberExpression. now rewrite (Ho l Hl).
  - unfold onMemberOfIdentifier.
    destruct (here l) as [| |o p c opt| | | | | | | | | | | | | | | | |] eqn:E;
      try reflexivity.
    destruct o; try reflexivity.
    unfold isArrayIndexVariable. simpl here.
    rewrite Hs; [reflexivity|].
    apply visit_sub; [assumption|]. rewrite E. simpl. auto.
  - unfold onCallOfIdentifier.
    destruct (here l) as [| | |c a opt| | | | | | | | | | | | | | | |] eqn:E;
      try reflexivity.
    destruct c; try reflexivity.
    unfold isArrayIndexVariable. simpl here.
    rewrite Hs; [reflexivity|].
    apply visit_sub; [assumption|]. rewrite E. simpl. auto.
Qed.

End Reports.

(** ** Reporting of unguarded uses *)

Module Completeness.
Import Rule TS Engine Traversal Reports Examples Statements.

(** The listener for member expressions, as one condition. *)
Lemma onMemberExpression_unguarded (ctx : context) (U : loc) :
  isArrayIndexAccess (here U) = true ->
  isDirectUse U = true ->
  isSafeKeyAccess (stack ctx) U (services_of ctx) = false ->
  isGuarded U = false ->
  onMemberExpression ctx U = [unsafe_access U].
Proof.
  intros Hacc Huse Hex Hg.
  unfold isGuarded in Hg.
  apply orb_false_iff in Hg as [Hg Hnc].
  apply orb_false_iff in Hg as [Hg Hopt].
  apply orb_false_iff in Hg as [Hloop Hid].
  unfold onMemberExpression.
  destruct (here U) as [| |o p c opt| | | | | | | | | | | | | | | | |] eqn:EU;
    try discriminate Hacc.
  rewrite Hacc. change (negb true) with false. cbv iota.
  assert (Hvar : getArrayIndexVariableName U = None).
  { unfold getArrayIndexVariableName. unfold isDirectUse in Huse.
    destruct (parent U) as [q|]; [|reflexivity].
    destruct (here q); try discriminate Huse; reflexivity. }
  rewrite Hvar. change (truthy None) with false. cbv iota.
  rewrite Hex, Hloop.
  unfold isIdentityGuarded in Hid. rewrite EU in Hid.
  assert (Hkey : truthy (getArrayIndexAccessKey (MemberExpression o p c opt)) &&
                 match getArrayIndexAccessKey (MemberExpression o p c opt) with
                 | Some k => isInsideNullCheckedBlockExpression U k
                 | None => false
                 end = false).
  { destruct (getArrayIndexAccessKey (MemberExpression o p c opt));
      [exact Hid | reflexivity]. }
  rewrite Hkey.
  unfold isDirectUse in Huse. unfold isOptionalUse in Hopt.
  unfold isUnsafePropertyAccess, isUnsafeFunctionCall.
  destruct (parent U) as [q|]; [|discriminate Huse].
  destruct (here q); try discriminate Huse;
    rewrite Huse, Hopt, Hnc; reflexivity.
Qed.

(** C1: the code breaks the claim at [if (flag) { arr[0].x; }].  The
    access [arr[0]] is a dynamic-key access whose property is read
    directly, and no guard of the list applies to it ([flag] is no nullish
    check of [arr[0]]); the claim requires one report at the access, the
    run gives none.  The bare use [arr[0].x;] is reported, and so is the
    same program written through a variable,
    [const item = arr[0]; if (flag) { item.x; }]. *)
Theorem unrelated_if_silences_access :
  In underFlag_access (visit [] underFlag) /\
  isArrayIndexAccess (here underFlag_access) = true /\
  isDirectUse underFlag_access = true /\
  ~ Spec.guarded underFlag_access /\
  run syntaxHost underFlag = [] /\
  run syntaxHost bareUse = [unsafe_access bareUse_access] /\
  run itemHost underFlagVariable = [unsafe_access underFlagVariable_use].
Proof.
  split; [vm_compute; tauto|].
  do 2 (split; [vm_compute; reflexivity|]).
  split; [|repeat split; vm_compute; reflexivity].
  intros [H|[H|[H|[H|H]]]]; try (vm_compute in H; discriminate H).
  - destruct H as (obj & i & c & o & F & init & test & update & body
                   & HU & HF & HFor & _).
    simpl in HF.
    repeat (destruct HF as [<-|HF]; [discriminate HFor|]).
    destruct HF.
  - destruct H as (S & HS & H).
    vm_compute in HS. injection HS as <-.
    destruct H as [H|[H|[H|H]]]; vm_compute in H; discriminate H.
Qed.

End Completeness.

(** ** Nullish checks: the two forms *)

Module NullishChecks.
Import Rule TS Engine Traversal Reports Examples Statements.

(** C2: the access form of the nullish check misses two shapes the
    variable form accepts.  A negation and a disjunction never qualify
    for an access, whatever their operands, while the variable form
    accepts [!item] and [item || r]; so [if (!arr[0]) { throw e; }
    arr[0].x;] is reported although the same program through a variable
    is not. *)
Theorem access_form_misses_negation_and_disjunction :
  (forall key op arg,
      checksForNullishExpression (UnaryExpression op arg) key = false) /\
  (forall key l r,
      checksForNullishExpression (LogicalExpression "||" l r) key = false) /\
  (forall v, checksForNullish (UnaryExpression "!" (Identifier v)) v = true) /\
  (forall v r,
      checksForNullish (LogicalExpression "||" (Identifier v) r) v = true) /\
  getArrayIndexAccessKey arr0 = Some "arr[0]" /\
  run itemHost negatedExitVariable = [] /\
  List.length (run syntaxHost negatedExit) = 1.
Proof.
  repeat split; try reflexivity.
  - intro v. simpl. apply String.eqb_refl.
  - intros v r. simpl. now rewrite String.eqb_refl.
Qed.

Lemma isComparison_cases (op : string) :
  isComparison op = true ->
  op = "!==" \/ op = "!=" \/ op = "===" \/ op = "==".
Proof.
  unfold isComparison. intro H.
  repeat (apply orb_true_iff in H as [H|H]);
    apply String.eqb_eq in H; auto.
Qed.





End NullishChecks.

(** ** Loop-bound narrowing *)

Module LoopBound.
Import Rule TS Engine Traversal Reports Examples Statements.



(** The other direction fails as well: [for (; i <= arr.length; )
    { arr[i].x; }] has neither shape and is narrowed. *)
Lemma le_length_narrowed :
  isInsideSafeForLoop
    (loopOver_access (leLength (Identifier "arr")) (Identifier "arr")) = true /\
  ~ Spec.loopBound
      (loopOver_access (leLength (Identifier "arr")) (Identifier "arr")) /\
  run syntaxHost (loopOver (leLength (Identifier "arr")) (Identifier "arr"))
  = [].
Proof.
  split; [reflexivity | split; [|reflexivity]].
  intros (obj & i & c & o & F & init & test & update & body
          & HU & HF & HFor & Ht).
  simpl in HU. injection HU as <- <- _ _.
  simpl in HF.
  repeat (destruct HF as [<-|HF]; [try discriminate HFor|]);
    [|destruct HF].
  simpl in HFor. injection HFor as _ <- _ _.
  destruct Ht as [Ht|Ht]; discriminate Ht.
Qed.



End LoopBound.

(** ** The classifier and the oracle *)

Module Oracle.
Import Rule TS Engine Traversal Reports Examples Statements.

Lemma isArrayIndexAccess_iff (o p : AST.node) (c opt : bool) :
  isArrayIndexAccess (MemberExpression o p c opt) = true <->
  c = true /\
  ((exists n, p = Literal (LNumber n)) \/ (exists s, p = Identifier s) \/
   (exists op l r, p = BinaryExpression op l r)).
Proof.
  simpl. split.
  - destruct c; [|discriminate]. simpl. intro H. split; [reflexivity|].
    destruct p; try discriminate H; eauto 6.
    destruct value; try discriminate H; eauto.
  - intros [-> [[n ->]|[[s ->]|(op & l & r & ->)]]]; reflexivity.
Qed.

(** C8: a member access in dot form or with a string-literal key is not
    classified as dynamic, is never registered as a binding and gets no
    report; the classifier accepts exactly the computed accesses keyed by
    a numeric literal, an identifier or a binary expression. *)
Theorem static_access_never_partial :
  (forall o p c opt,
      isArrayIndexAccess (MemberExpression o p c opt) = true <->
      c = true /\
      ((exists n, p = Literal (LNumber n)) \/ (exists s, p = Identifier s) \/
       (exists op l r, p = BinaryExpression op l r))) /\
  (forall (ctx : context) (ast : AST.node) (U : loc) o p c opt,
      In U (visit [] ast) ->
      here U = MemberExpression o p c opt ->
      c = false \/ (exists s, p = Literal (LString s)) ->
      isArrayIndexAccess (here U) = false /\
      reports_at U (run ctx ast) = 0 /\
      (forall D id st,
          here D = VariableDeclarator id (Some (here U)) ->
          onVariableDeclarator ctx D st = st)).
Proof.
  split; [exact isArrayIndexAccess_iff|].
  intros ctx ast U o p c opt HU Hh Hs.
  assert (Hc : isArrayIndexAccess (here U) = false).
  { rewrite Hh. destruct Hs as [-> | [s ->]]; [reflexivity|].
    simpl. now destruct c. }
  split; [assumption | split].
  - rewrite reports_at_member; [| assumption | intros s E; congruence].
    unfold onMemberExpression. rewrite Hh in *. now rewrite Hc.
  - intros D id st HD. unfold onVariableDeclarator. rewrite HD, Hh in *.
    destruct id; try reflexivity. now rewrite Hc.
Qed.

Lemma static_access_never_partial_witness :
  reports_at staticUse_access (run syntaxHost staticUse) = 0.
Proof.
  destruct static_access_never_partial as [_ H].
  apply (H syntaxHost staticUse staticUse_access
           (Identifier "obj") (Literal (LString "foo")) true false).
  - vm_compute. tauto.
  - reflexivity.
  - right. exists "foo". reflexivity.
Defined.

(** Without an exemption the listeners do what they do without the
    type-checking capability. *)
Lemma services_of_syntaxOnly (ctx : context) : services_of (syntaxOnly ctx) = None.
Proof. reflexivity. Qed.

Lemma onMemberExpression_not_exempt (ctx : context) (node : loc) :
  isSafeKeyAccess (stack ctx) node (services_of ctx) = false ->
  onMemberExpression ctx node = onMemberExpression (syntaxOnly ctx) node.
Proof.
  intro H. unfold onMemberExpression.
  rewrite services_of_syntaxOnly, H. reflexivity.
Qed.

(** The oracle answers "exempt" only for a computed access keyed by a
    bare identifier. *)
Lemma isSafeKeyAccess_identifier_key (ctx : context) (node : loc) :
  isSafeKeyAccess (stack ctx) node (services_of ctx) = true ->
  exists obj name opt,
    here node = MemberExpression obj (Identifier name) true opt.
Proof.
  unfold isSafeKeyAccess. destruct (services_of ctx); [|discriminate].
  destruct (here node); try discriminate.
  destruct computed; [|discriminate]. simpl.
  destruct n2; try discriminate. eauto.
Qed.

(** C5: when the capability is missing, or a query for the access
    throws, the answer for the access is "not exempt" and the listener
    does what it does without type information; when this holds of every
    node of a file, the run is the run without the capability. *)
Theorem oracle_failure_contained (ctx : context) :
  (forall node,
      oracleFails ctx node ->
      isSafeKeyAccess (stack ctx) node (services_of ctx) = false /\
      onMemberExpression ctx node = onMemberExpression (syntaxOnly ctx) node) /\
  (forall ast,
      (forall n, In n (visit [] ast) -> oracleFails ctx n) ->
      run ctx ast = run (syntaxOnly ctx) ast).
Proof.
  assert (E : forall node, oracleFails ctx node ->
                isSafeKeyAccess (stack ctx) node (services_of ctx) = false).
  { intros node [H | (s & H & Hq)]; rewrite H; [reflexivity|].
    unfold isSafeKeyAccess. rewrite Hq.
    destruct (here node); try reflexivity.
    destruct (negb computed); [reflexivity|].
    destruct n2; reflexivity. }
  split.
  - intros node H. split; [now apply E|].
    apply onMemberExpression_not_exempt, E, H.
  - intros ast H. apply run_ext.
    + reflexivity.
    + intros n Hn. rewrite (E n (H n Hn)). reflexivity.
Qed.

Lemma oracle_failure_contained_witness :
  isSafeKeyAccess 64 keyed_access (services_of (typedHost Thrown)) = false /\
  run (typedHost Thrown) keyedUse = run (syntaxOnly (typedHost Thrown)) keyedUse.
Proof.
  destruct (oracle_failure_contained (typedHost Thrown)) as [one all].
  assert (F : forall n, oracleFails (typedHost Thrown) n).
  { intro n. right. exists (servicesOf Thrown). split; reflexivity. }
  split.
  - apply (one keyed_access (F keyed_access)).
  - apply all. intros n _. apply F.
Defined.

(** The first tests of [isTypeSafeIndex] decide before any exemption. *)
Lemma isTypeSafeIndex_numeric_or_array (stack : nat)
      (indexType objectType : tsType) (checker : TypeChecker) :
  has_flag indexType TypeFlags.Number = true \/
  isNumberLiteral indexType = true \/
  isArrayType checker objectType = Ok true \/
  isTupleType checker objectType = Ok true ->
  catch_false (isTypeSafeIndex stack indexType objectType checker) = false.
Proof.
  intro H. destruct stack as [|stack]; [reflexivity|]. simpl.
  destruct (has_flag indexType TypeFlags.Number); [reflexivity|].
  destruct (isNumberLiteral indexType); [reflexivity|].
  destruct H as [H|[H|[H|H]]]; try discriminate H.
  - rewrite H. reflexivity.
  - destruct (isArrayType checker objectType) as [[|]|]; try reflexivity.
    simpl. rewrite H. reflexivity.
Qed.

(** C6: when the static type of the object is an array or tuple type, or
    the static type of the key is numeric, the oracle answers "not
    exempt", whatever else holds of the key type. *)
Theorem numeric_or_array_never_exempt (stack : nat) (node : loc)
        (services : ParserServices) (p : tsProgram) (checker : TypeChecker)
        (tsn : tsNode) (objectType indexType : tsType) :
  program services = Some p ->
  getTypeChecker p = Ok checker ->
  esTreeNodeToTSNodeMap_get services (path_of node) = Ok (Some tsn) ->
  getTypeAtLocation checker (expression tsn) = Ok objectType ->
  getTypeAtLocation checker (argumentExpression tsn) = Ok indexType ->
  has_flag indexType TypeFlags.Number = true \/
  isNumberLiteral indexType = true \/
  isArrayType checker objectType = Ok true \/
  isTupleType checker objectType = Ok true ->
  isSafeKeyAccess stack node (Some services) = false.
Proof.
  intros Hp Hc Hn Ho Hi H.
  unfold isSafeKeyAccess.
  destruct (here node); try reflexivity.
  destruct (negb computed); [reflexivity|].
  destruct n2; try reflexivity.
  unfold queryTypes. rewrite Hp, Hc. simpl. rewrite Hn. simpl.
  destruct (negb (isElementAccessExpression tsn)); [reflexivity|].
  rewrite Ho. simpl. rewrite Hi. simpl.
  now apply isTypeSafeIndex_numeric_or_array.
Qed.

Lemma numeric_or_array_never_exempt_witness :
  isSafeKeyAccess 64 keyed_access
    (Some (servicesOf (Ok (checkerOf arrayType enumKey)))) = false /\
  isSafeKeyAccess 64 keyed_access
    (Some (servicesOf (Ok (checkerOf recordType numberType)))) = false /\
  isEnumType enumKey = true.
Proof.
  split; [|split; [|reflexivity]].
  - apply (numeric_or_array_never_exempt 64 keyed_access
             (servicesOf (Ok (checkerOf arrayType enumKey)))
             (p := {| getTypeChecker := Ok (checkerOf arrayType enumKey) |})
             (checker := checkerOf arrayType enumKey)
             (tsn := TsNode true 0 1)
             (objectType := arrayType) (indexType := enumKey));
      try reflexivity.
    right. right. left. reflexivity.
  - apply (numeric_or_array_never_exempt 64 keyed_access
             (servicesOf (Ok (checkerOf recordType numberType)))
             (p := {| getTypeChecker := Ok (checkerOf recordType numberType) |})
             (checker := checkerOf recordType numberType)
             (tsn := TsNode true 0 1)
             (objectType := recordType) (indexType := numberType));
      try reflexivity.
    left. reflexivity.
Defined.

End Oracle.

(** ** Binding resolution through the scope chain *)

Module Scopes.
Import Rule TS Engine Traversal Reports Examples Statements.

(** The walk stops at the first scope that declares the name. *)
Lemma lookup_nearest (name : string) (inner : list scope) (sc : scope)
      (outer : list scope) (v : variable) (st : declarations) :
  (forall s, In s inner -> find (named name) s = None) ->
  find (named name) sc = Some v ->
  lookup name (inner ++ sc :: outer) st = existsb (isRegistered st) (defs v).
Proof.
  intros Hin Hv. induction inner as [|s inner IH]; simpl.
  - unfold named in Hv. rewrite Hv. reflexivity.
  - pose proof (Hin s (or_introl eq_refl)) as Hs. unfold named in Hs.
    rewrite Hs. apply IH. intros. apply Hin. now right.
Qed.

Lemma has_cons (p q : path) (st : declarations) :
  has (q :: st) p = path_eqb p q || has st p.
Proof. reflexivity. Qed.

Lemma onVariableDeclarator_mono (ctx : context) (l : loc)
      (st : declarations) (p : path) :
  has st p = true -> has (onVariableDeclarator ctx l st) p = true.
Proof.
  intro H. unfold onVariableDeclarator.
  repeat match goal with
         | |- has (match ?x with _ => _ end) p = true => destruct x
         | |- has (if ?x then _ else _) p = true => destruct x
         end; try assumption.
  rewrite has_cons, H. apply orb_true_r.
Qed.

(** The set only grows during a traversal. *)
Lemma registered_mono (ctx : context) (locs : list loc) :
  forall st p, has st p = true -> has (registered ctx st locs) p = true.
Proof.
  induction locs as [|l r IH]; intros st p H; simpl; [assumption|].
  apply IH. now apply onVariableDeclarator_mono.
Qed.

Section Shadowing.
Variable ctx : context.
Variable ast : AST.node.
Variable X : loc.
Variable name : string.
Variable inner outer : list scope.
Variable sc : scope.
Variable v : variable.
Hypothesis visited : In X (visit [] ast).
Hypothesis identifier : here X = Identifier name.
Hypothesis chain : getScope ctx (path_of X) = inner ++ sc :: outer.
Hypothesis not_inner : forall s, In s inner -> find (named name) s = None.
Hypothesis nearest : find (named name) sc = Some v.

Lemma unregistered_not_bound (st : declarations) :
  (forall d, In d (defs v) -> isRegistered st d = false) ->
  isArrayIndexVariable ctx X st = false.
Proof.
  intro H. unfold isArrayIndexVariable. rewrite identifier, chain.
  rewrite (@lookup_nearest name inner sc outer v st not_inner nearest).
  destruct (existsb (isRegistered st) (defs v)) eqn:E; [|reflexivity].
  apply existsb_exists in E as (d & Hd & E). now rewrite (H d Hd) in E.
Qed.

Lemma no_report_at_identifier (locs : list loc) :
  (forall l, In l locs -> In l (visit [] ast)) ->
  forall st,
    (forall d, In d (defs v) ->
               isRegistered (registered ctx st locs) d = false) ->
    reports_at X (traverse ctx st locs) = 0.
Proof.
  induction locs as [|l r IH]; intros Hin st Hreg; [reflexivity|].
  simpl. rewrite !reports_at_app.
  assert (Hl : In l (visit [] ast)) by (apply Hin; now left).
  assert (Hst : forall d, In d (defs v) -> isRegistered st d = false).
  { intros d Hd. specialize (Hreg d Hd). unfold isRegistered in *.
    destruct (def_node_type d =? "VariableDeclarator"); [|reflexivity].
    destruct (has st (def_node d)) eqn:E; [|reflexivity].
    apply (@registered_mono ctx (l :: r)) in E. rewrite E in Hreg.
    discriminate Hreg. }
  assert (E0 : reports_at X (onMemberExpression ctx l) = 0).
  { apply reports_at_none. intros d Hd.
    pose proof (@onMemberExpression_node ctx l d Hd) as ->. simpl.
    destruct (same_node l X) eqn:E; [|reflexivity].
    apply (visit_same_node ast []) in E; [| assumption | assumption].
    subst l. unfold onMemberExpression in Hd. rewrite identifier in Hd.
    destruct Hd. }
  assert (E1 : reports_at X (onMemberOfIdentifier ctx l st) = 0).
  { apply reports_at_none. intros d Hd.
    apply onMemberOfIdentifier_node in Hd as (n & Hc & Hd & Hv).
    destruct (same_node (node d) X) eqn:E; [|reflexivity].
    rewrite Hd in E. apply (visit_same_node ast []) in E;
      [| now apply visit_sub | assumption].
    rewrite Hd, E, (@unregistered_not_bound st Hst) in Hv. discriminate Hv. }
  assert (E2 : reports_at X (onCallOfIdentifier ctx l st) = 0).
  { apply reports_at_none. intros d Hd.
    apply onCallOfIdentifier_node in Hd as (n & Hc & Hd & Hv).
    destruct (same_node (node d) X) eqn:E; [|reflexivity].
    rewrite Hd in E. apply (visit_same_node ast []) in E;
      [| now apply visit_sub | assumption].
    rewrite Hd, E, (@unregistered_not_bound st Hst) in Hv. discriminate Hv. }
  rewrite E0, E1, E2. simpl.
  apply IH; [intros; apply Hin; now right | exact Hreg].
Qed.

End Shadowing.



End Scopes.

(** ** The concrete scenarios *)

Module Scenarios.
Import Rule TS Engine Examples.

Example scenario1_one_report :
  anchors (run syntaxHost scenario1)
  = [([FObject; FCallee; FInit; FDeclarations 0; FBody 1],
      "issue:unsafe-access")].
Proof. reflexivity. Qed.

Example scenario2_guarded : run syntaxHost scenario2 = [].
Proof. reflexivity. Qed.

Example scenario3_after_the_block :
  anchors (run syntaxHost scenario3)
  = [([FObject; FCallee; FExpression; FBody 2], "issue:unsafe-access")].
Proof. reflexivity. Qed.

Example scenario4_early_exit : run scenario4Host scenario4 = [].
Proof. reflexivity. Qed.

Example scenario5_two_levels :
  anchors (run syntaxHost scenario5)
  = [([FObject; FCallee; FInit; FDeclarations 0; FBody 1],
      "issue:unsafe-access");
     ([FObject; FObject; FCallee; FInit; FDeclarations 0; FBody 1],
      "issue:unsafe-access")].
Proof. reflexivity. Qed.

Example scenario6_enum_key :
  run (typedHost (Ok (checkerOf recordType enumKey))) keyedUse = [] /\
  List.length (run syntaxHost keyedUse) = 1.
Proof. split; reflexivity. Qed.

(** Without the parameter, the use of [fare] in the function resolves to
    the outer binding and is reported. *)
Example unshadowed_use_reported :
  anchors (run unshadowedHost shadowed)
  = [(path_of fare_in_function, "issue:unsafe-access")].
Proof. reflexivity. Qed.

(** A bound variable under an [if] with a reversed comparison is
    reported. *)
Example reversed_check_variable_reported :
  anchors (run itemHost reversedVariable)
  = [([FObject; FExpression; FBody 0; FConsequent; FBody 1],
      "issue:unsafe-access")].
Proof. reflexivity. Qed.

End Scenarios.

(** ** The binding tracker over a traversal *)

Module Bindings.
Import Rule TS Engine Traversal Reports Examples Statements.

Lemma traverse_app (ctx : context) (a b : list loc) :
  forall st,
    traverse ctx st (a ++ b)
    = traverse ctx st a ++ traverse ctx (registered ctx st a) b.
Proof.
  induction a as [|l a IH]; intro st; [reflexivity|].
  simpl. rewrite IH. now rewrite !app_assoc.
Qed.

(** The listener for declarators adds the declarator exactly when it is
    a binding declarator. *)
Lemma onVariableDeclarator_cases (ctx : context) (D : loc) (st : declarations) :
  (isBindingDeclarator ctx D /\
   onVariableDeclarator ctx D st = path_of D :: st) \/
  (~ isBindingDeclarator ctx D /\ onVariableDeclarator ctx D st = st).
Proof.
  unfold onVariableDeclarator, isBindingDeclarator.
  destruct (here D) as [| | | | | | | | | | | | | | | | | |id i|];
    try (right; split; [intros (x & o & p & c & opt & H & _); discriminate H
                       | reflexivity]).
  destruct id as [x| | | | | | | | | | | | | | | | | | |];
    try (right; split; [intros (x & o & p & c & opt & H & _); discriminate H
                       | reflexivity]).
  destruct i as [i|];
    [| right; split; [intros (y & o & p & c & opt & H & _); discriminate H
                     | reflexivity]].
  destruct i as [| |o p c opt| | | | | | | | | | | | | | | | |];
    try (right; split; [intros (y & o & p & c & opt & H & _); discriminate H
                       | reflexivity]).
  destruct (isArrayIndexAccess (MemberExpression o p c opt)) eqn:Ea.
  - destruct (isSafeKeyAccess (stack ctx)
                (sub D FInit (MemberExpression o p c opt)) (services_of ctx))
      eqn:Es.
    + right. split; [|reflexivity].
      intros (y & o' & p' & c' & opt' & H & _ & Hs).
      injection H as _ <- <- <- <-. rewrite Es in Hs. discriminate Hs.
    + left. split; [|reflexivity]. exists x, o, p, c, opt. auto.
  - right. split; [|reflexivity].
    intros (y & o' & p' & c' & opt' & H & Ha & _).
    injection H as _ <- <- <- <-. rewrite Ea in Ha. discriminate Ha.
Qed.

Lemma registered_iff (ctx : context) (locs : list loc) (p : path) :
  forall st,
    has (registered ctx st locs) p = true <->
    has st p = true \/
    exists D, In D locs /\ path_of D = p /\ isBindingDeclarator ctx D.
Proof.
  induction locs as [|l r IH]; intro st; simpl.
  - split; [auto | intros [H | (D & [] & _)]; assumption].
  - rewrite IH.
    destruct (onVariableDeclarator_cases ctx l st) as [[Hb ->] | [Hn ->]].
    + rewrite Scopes.has_cons. split.
      * intros [H | (D & HD & Hp & HB)].
        -- apply orb_true_iff in H as [H|H]; [|now left].
           apply path_eqb_eq in H. right. exists l. auto.
        -- right. exists D. auto.
      * intros [H | (D & [<-|HD] & Hp & HB)].
        -- left. rewrite H. apply orb_true_r.
        -- left. subst p. rewrite path_eqb_refl. reflexivity.
        -- right. exists D. auto.
    + split.
      * intros [H | (D & HD & Hp & HB)]; [now left|].
        right. exists D. auto.
      * intros [H | (D & [<-|HD] & Hp & HB)]; [now left | contradiction |].
        right. exists D. auto.
Qed.

(** X1: after any part of a traversal, the set of registered declarators
    holds exactly the binding declarators entered so far. *)
Theorem registered_exactly_bindings (ctx : context) (locs : list loc)
        (p : path) :
  has (registered ctx [] locs) p = true <->
  exists D, In D locs /\ path_of D = p /\ isBindingDeclarator ctx D.
Proof.
  rewrite registered_iff. split; [|auto].
  intros [H|H]; [discriminate H | exact H].
Qed.

End Bindings.

(** ** Reports at the uses of a variable *)

Module Uses.
Import Rule TS Engine Traversal Reports Examples Statements Bindings.

(** A visited node is the root or the child of a visited node. *)
Lemma visit_parent (X : loc) (n : AST.node) :
  forall u, In X (visit u n) ->
            X = Loc n u \/
            exists l f, In l (visit u n) /\
                        In (f, here X) (children (here l)) /\
                        X = sub l f (here X).
Proof.
  induction n as [n IH] using node_children_ind. intros u H.
  rewrite visit_eq in H. destruct H as [<-|H]; [now left|]. right.
  apply in_flat_map in H as ([f c] & Hc & H). simpl in H.
  assert (lift : forall l, In l (visit ((n, f) :: u) c) -> In l (visit u n)).
  { intros l Hl. rewrite visit_eq. right. apply in_flat_map.
    exists (f, c). auto. }
  destruct (IH f c Hc _ H) as [-> | (l & g & Hl & Hg & E)].
  - exists (Loc n u), f. repeat split; try assumption.
    rewrite visit_eq. now left.
  - exists l, g. auto.
Qed.

Lemma sub_inj (l l' : loc) (f f' : field) (c c' : AST.node) :
  sub l f c = sub l' f' c' -> l = l' /\ f = f' /\ c = c'.
Proof.
  destruct l, l'. unfold sub. simpl. intro H. injection H as -> -> -> ->.
  auto.
Qed.

Lemma onMemberExpression_short (ctx : context) (l : loc) :
  List.length (onMemberExpression ctx l) <= 1.
Proof.
  unfold onMemberExpression.
  repeat match goal with
         | |- List.length (match ?x with _ => _ end) <= 1 => destruct x
         | |- List.length (if ?x then _ else _) <= 1 => destruct x
         end; simpl; lia.
Qed.

Section OneFile.
Variable ctx : context.
Variable ast : AST.node.
Variable X : loc.
Variable name : string.
Hypothesis visited : In X (visit [] ast).
Hypothesis identifier : here X = Identifier name.

Lemma no_member_report_at_identifier (l : loc) :
  In l (visit [] ast) -> reports_at X (onMemberExpression ctx l) = 0.
Proof.
  intro Hl. apply reports_at_none. intros d Hd.
  pose proof (@onMemberExpression_node ctx l d Hd) as ->. simpl.
  destruct (same_node l X) eqn:E; [|reflexivity].
  apply (visit_same_node ast []) in E; [| assumption | assumption].
  subst l. unfold onMemberExpression in Hd. rewrite identifier in Hd.
  destruct Hd.
Qed.

(** Nodes that are not the parent of [X] do not report at [X]. *)
Lemma no_report_from_others (locs : list loc) :
  (forall l, In l locs -> In l (visit [] ast)) ->
  (forall l f c, In l locs -> sub l f c <> X) ->
  forall st, reports_at X (traverse ctx st locs) = 0.
Proof.
  induction locs as [|l r IH]; intros Hin Hne st; [reflexivity|].
  simpl. rewrite !reports_at_app.
  assert (Hl : In l (visit [] ast)) by (apply Hin; now left).
  rewrite no_member_report_at_identifier by assumption.
  assert (E1 : reports_at X (onMemberOfIdentifier ctx l st) = 0).
  { apply reports_at_none. intros d Hd.
    apply onMemberOfIdentifier_node in Hd as (n & Hc & Hd & _).
    destruct (same_node (node d) X) eqn:E; [|reflexivity].
    rewrite Hd in E. apply (visit_same_node ast []) in E;
      [| now apply visit_sub | assumption].
    exfalso. apply (Hne l FObject (Identifier n)); [now left | assumption]. }
  assert (E2 : reports_at X (onCallOfIdentifier ctx l st) = 0).
  { apply reports_at_none. intros d Hd.
    apply onCallOfIdentifier_node in Hd as (n & Hc & Hd & _).
    destruct (same_node (node d) X) eqn:E; [|reflexivity].
    rewrite Hd in E. apply (visit_same_node ast []) in E;
      [| now apply visit_sub | assumption].
    exfalso. apply (Hne l FCallee (Identifier n)); [now left | assumption]. }
  rewrite E1, E2. simpl. apply IH.
  - intros. apply Hin. now right.
  - intros l' f c Hl'. apply Hne. now right.
Qed.

(** The reports at an identifier are those its parent makes when it is
    entered, with the declarators registered before. *)
Lemma reports_at_child (pre post : list loc) (l : loc) (f : field) :
  visit [] ast = pre ++ l :: post ->
  X = sub l f (Identifier name) ->
  reports_at X (run ctx ast)
  = reports_at X (onMemberOfIdentifier ctx l (registered ctx [] pre)) +
    reports_at X (onCallOfIdentifier ctx l (registered ctx [] pre)).
Proof.
  intros Hv HX. unfold run.
  pose proof (visit_NoDup_locs ast) as ND. rewrite Hv in ND |- *.
  assert (Hin : forall x, In x (pre ++ l :: post) -> In x (visit [] ast))
    by (intros x Hx; now rewrite Hv).
  assert (others : forall locs, (forall x, In x locs -> In x (pre ++ l :: post)) ->
                                ~ In l locs ->
                                forall st, reports_at X (traverse ctx st locs) = 0).
  { intros locs Hsub Hnot st. apply no_report_from_others.
    - intros x Hx. apply Hin, Hsub, Hx.
    - intros l' g c Hl' E. rewrite HX in E.
      apply sub_inj in E as (-> & _ & _). contradiction. }
  rewrite traverse_app, reports_at_app.
  rewrite (others pre);
    [| intros x Hx; apply in_or_app; now left
     | intro H; apply NoDup_remove_2 in ND; apply ND, in_or_app; now left].
  simpl. rewrite !reports_at_app.
  rewrite no_member_report_at_identifier;
    [| apply Hin, in_or_app; right; now left].
  rewrite (others post);
    [| intros x Hx; apply in_or_app; right; now right
     | intro H; apply NoDup_remove_2 in ND; apply ND, in_or_app; now right].
  lia.
Qed.

End OneFile.

Lemma reports_at_unsafe_access (X : loc) :
  reports_at X [unsafe_access X] = 1.
Proof. unfold reports_at. simpl. now rewrite same_node_refl. Qed.

(** X2: a property read off a variable, [name.p] or [name[p]], gets one
    report at the identifier exactly when, with the declarators
    registered before the read is entered, the identifier resolves to a
    binding, the read is not optional and it is not inside a null-checked
    block; otherwise none. *)
Theorem variable_member_use_report (ctx : context) (ast : AST.node)
        (pre post : list loc) (l : loc) (name : string) (p : AST.node)
        (c opt : bool) :
  visit [] ast = pre ++ l :: post ->
  here l = MemberExpression (Identifier name) p c opt ->
  reports_at (sub l FObject (Identifier name)) (run ctx ast)
  = if isArrayIndexVariable ctx (sub l FObject (Identifier name))
                            (registered ctx [] pre)
       && negb (hasOptionalChaining l)
       && negb (isInsideNullCheckedBlock l name)
    then 1 else 0.
Proof.
  intros Hv Hl.
  assert (HX : In (sub l FObject (Identifier name)) (visit [] ast)).
  { apply visit_sub; [rewrite Hv; apply in_or_app; right; now left|].
    rewrite Hl. simpl. auto. }
  rewrite (@reports_at_child ctx ast _ name HX eq_refl pre post l FObject Hv
                             eq_refl).
  unfold onMemberOfIdentifier, onCallOfIdentifier. rewrite Hl.
  destruct (isArrayIndexVariable ctx _ _); [|reflexivity].
  destruct (hasOptionalChaining l); [reflexivity|].
  destruct (isInsideNullCheckedBlock l name); [reflexivity|].
  simpl andb. cbv iota. now rewrite reports_at_unsafe_access.
Qed.

Lemma variable_member_use_report_witness :
  reports_at (sub plainUses_member FObject (Identifier "item"))
             (run itemHost plainUses) = 1 /\
  reports_at (sub useFirst_member FObject (Identifier "item"))
             (run useFirstHost useFirst) = 0.
Proof.
  split.
  - rewrite (@variable_member_use_report itemHost plainUses
               (firstn 8 (visit [] plainUses)) (skipn 9 (visit [] plainUses))
               plainUses_member "item" (Identifier "x") false false);
      reflexivity.
  - rewrite (@variable_member_use_report useFirstHost useFirst
               (firstn 2 (visit [] useFirst)) (skipn 3 (visit [] useFirst))
               useFirst_member "item" (Identifier "x") false false);
      reflexivity.
Defined.

(** X3: a call of a variable, [name(...)], gets one report at the
    identifier exactly when, with the declarators registered before the
    call is entered, the identifier resolves to a binding and the call is
    not inside a null-checked block; optional chaining plays no part. *)
Theorem variable_call_use_report (ctx : context) (ast : AST.node)
        (pre post : list loc) (l : loc) (name : string)
        (args : list AST.node) (opt : bool) :
  visit [] ast = pre ++ l :: post ->
  here l = CallExpression (Identifier name) args opt ->
  reports_at (sub l FCallee (Identifier name)) (run ctx ast)
  = if isArrayIndexVariable ctx (sub l FCallee (Identifier name))
                            (registered ctx [] pre)
       && negb (isInsideNullCheckedBlock l name)
    then 1 else 0.
Proof.
  intros Hv Hl.
  assert (HX : In (sub l FCallee (Identifier name)) (visit [] ast)).
  { apply visit_sub; [rewrite Hv; apply in_or_app; right; now left|].
    rewrite Hl. simpl. auto. }
  rewrite (@reports_at_child ctx ast _ name HX eq_refl pre post l FCallee Hv
                             eq_refl).
  unfold onMemberOfIdentifier, onCallOfIdentifier. rewrite Hl.
  destruct (isArrayIndexVariable ctx _ _); [|reflexivity].
  destruct (isInsideNullCheckedBlock l name); [reflexivity|].
  simpl andb. cbv iota. now rewrite reports_at_unsafe_access.
Qed.

Lemma variable_call_use_report_witness :
  reports_at (sub plainUses_call FCallee (Identifier "item"))
             (run itemHost plainUses) = 1.
Proof.
  rewrite (@variable_call_use_report itemHost plainUses
             (firstn 12 (visit [] plainUses)) (skipn 13 (visit [] plainUses))
             plainUses_call "item" [] false);
    reflexivity.
Defined.

Lemma reports_at_le_length (U : loc) (ds : list diagnostic) :
  reports_at U ds <= List.length ds.
Proof.
  unfold reports_at. induction ds as [|d r IH]; simpl; [lia|].
  destruct (same_node (node d) U); simpl; lia.
Qed.

Lemma onMemberOfIdentifier_short (ctx : context) (l : loc) (st : declarations) :
  List.length (onMemberOfIdentifier ctx l st) <= 1.
Proof.
  unfold onMemberOfIdentifier.
  repeat match goal with
         | |- List.length (match ?x with _ => _ end) <= 1 => destruct x
         | |- List.length (if ?x then _ else _) <= 1 => destruct x
         end; simpl; lia.
Qed.

Lemma onCallOfIdentifier_short (ctx : context) (l : loc) (st : declarations) :
  List.length (onCallOfIdentifier ctx l st) <= 1.
Proof.
  unfold onCallOfIdentifier.
  repeat match goal with
         | |- List.length (match ?x with _ => _ end) <= 1 => destruct x
         | |- List.length (if ?x then _ else _) <= 1 => destruct x
         end; simpl; lia.
Qed.

(** X4: no node of a file gets more than one report in a run. *)
Theorem at_most_one_report (ctx : context) (ast : AST.node) (U : loc) :
  In U (visit [] ast) -> reports_at U (run ctx ast) <= 1.
Proof.
  intro HU.
  destruct (here U) as [name| | | | | | | | | | | | | | | | | | |] eqn:E;
    try (rewrite reports_at_member;
         [apply onMemberExpression_short | assumption
         | intros s Hs; rewrite E in Hs; discriminate Hs]).
  destruct (visit_parent _ _ _ HU) as [-> | (l & f & Hl & Hc & HX)].
  - unfold run. rewrite (@no_report_from_others ctx ast _ name HU E); [lia | auto |].
    intros l f c _ H. discriminate H.
  - rewrite E in HX.
    destruct (in_split _ _ Hl) as (pre & post & Hv).
    rewrite (@reports_at_child ctx ast U name HU E pre post l f Hv HX).
    pose proof (reports_at_le_length U
                  (onMemberOfIdentifier ctx l (registered ctx [] pre))) as B1.
    pose proof (reports_at_le_length U
                  (onCallOfIdentifier ctx l (registered ctx [] pre))) as B2.
    pose proof (onMemberOfIdentifier_short ctx l (registered ctx [] pre)) as S1.
    pose proof (onCallOfIdentifier_short ctx l (registered ctx [] pre)) as S2.
    assert (Z : onMemberOfIdentifier ctx l (registered ctx [] pre) = [] \/
                onCallOfIdentifier ctx l (registered ctx [] pre) = []).
    { unfold onMemberOfIdentifier, onCallOfIdentifier.
      destruct (here l); auto. }
    destruct Z as [Z|Z]; rewrite Z in *; simpl in *; lia.
Qed.

Lemma at_most_one_report_witness :
  reports_at (sub plainUses_member FObject (Identifier "item"))
             (run itemHost plainUses) <= 1.
Proof.
  apply at_most_one_report. vm_compute. tauto.
Defined.

Section Resolution.
Variable ctx : context.
Variable ast : AST.node.
Variable X : loc.
Variable name : string.
Variable inner outer : list scope.
Variable sc : scope.
Variable v : variable.
Hypothesis visited : In X (visit [] ast).
Hypothesis identifier : here X = Identifier name.
Hypothesis chain : getScope ctx (path_of X) = inner ++ sc :: outer.
Hypothesis not_inner : forall s, In s inner -> find (named name) s = None.
Hypothesis nearest : find (named name) sc = Some v.

Lemma not_entered_not_registered (locs : list loc) :
  (forall d D, In d (defs v) -> In D locs -> path_of D = def_node d ->
               ~ isBindingDeclarator ctx D) ->
  forall d, In d (defs v) -> isRegistered (registered ctx [] locs) d = false.
Proof.
  intros H d Hd. unfold isRegistered.
  destruct (has (registered ctx [] locs) (def_node d)) eqn:E;
    [|apply andb_false_r].
  apply registered_iff in E as [E | (D & HD & Hp & HB)]; [discriminate E|].
  exfalso. exact (H d D Hd HD Hp HB).
Qed.

Lemma unbound_no_reports (l : loc) (st : declarations) :
  In l (visit [] ast) ->
  isArrayIndexVariable ctx X st = false ->
  reports_at X (onMemberOfIdentifier ctx l st) = 0 /\
  reports_at X (onCallOfIdentifier ctx l st) = 0.
Proof.
  intros Hl Hu. split; apply reports_at_none; intros d Hd.
  - apply onMemberOfIdentifier_node in Hd as (n & Hc & Hd & Hv).
    destruct (same_node (node d) X) eqn:E; [|reflexivity].
    rewrite Hd in E. apply (visit_same_node ast []) in E;
      [| now apply visit_sub | assumption].
    rewrite Hd, E, Hu in Hv. discriminate Hv.
  - apply onCallOfIdentifier_node in Hd as (n & Hc & Hd & Hv).
    destruct (same_node (node d) X) eqn:E; [|reflexivity].
    rewrite Hd in E. apply (visit_same_node ast []) in E;
      [| now apply visit_sub | assumption].
    rewrite Hd, E, Hu in Hv. discriminate Hv.
Qed.

End Resolution.

(** X5: a use entered before every declarator of the variable it
    resolves to is not reported: the declarations are registered in the
    order of the traversal and hoisting is not followed. *)
Theorem use_before_declaration_not_reported (ctx : context) (ast : AST.node)
        (pre post : list loc) (l : loc) (f : field) (X : loc) (name : string)
        (inner outer : list scope) (sc : scope) (v : variable) :
  visit [] ast = pre ++ l :: post ->
  In (f, Identifier name) (children (here l)) ->
  X = sub l f (Identifier name) ->
  getScope ctx (path_of X) = inner ++ sc :: outer ->
  (forall s, In s inner -> find (named name) s = None) ->
  find (named name) sc = Some v ->
  (forall d D, In d (defs v) -> In D pre -> path_of D <> def_node d) ->
  reports_at X (run ctx ast) = 0.
Proof.
  intros Hv Hc HX Hch Hin Hn Hlater.
  assert (Hl : In l (visit [] ast))
    by (rewrite Hv; apply in_or_app; right; now left).
  assert (HXv : In X (visit [] ast)) by (subst X; now apply visit_sub).
  assert (Hid : here X = Identifier name) by (now subst X).
  rewrite (@reports_at_child ctx ast X name HXv Hid pre post l f Hv HX).
  assert (Hu : isArrayIndexVariable ctx X (registered ctx [] pre) = false).
  { eapply Scopes.unregistered_not_bound; try eassumption.
    apply not_entered_not_registered.
    intros d D Hd HD Hp _. exact (Hlater d D Hd HD Hp). }
  destruct (@unbound_no_reports ctx ast X HXv l (registered ctx [] pre) Hl Hu)
    as [-> ->].
  reflexivity.
Qed.

Lemma use_before_declaration_not_reported_witness :
  reports_at (sub useFirst_member FObject (Identifier "item"))
             (run useFirstHost useFirst) = 0.
Proof.
  apply (@use_before_declaration_not_reported useFirstHost useFirst
           (firstn 2 (visit [] useFirst)) (skipn 3 (visit [] useFirst))
           useFirst_member FObject _ "item" []
           [] (hd [] (getScope useFirstHost []))
           (Variable_ "item"
              [Definition_ "VariableDeclarator" [FDeclarations 0; FBody 1]]));
    try reflexivity.
  - simpl. auto.
  - intros s [].
  - intros d D [<-|[]] HD. simpl in HD.
    destruct HD as [<-|[<-|[]]]; discriminate.
Defined.

(** X6: a use whose nearest declaration is no binding declarator of the
    file - a parameter, a function, a declarator with another
    initializer or with an exempt access - is never reported. *)
Theorem non_binding_declaration_never_reported (ctx : context)
        (ast : AST.node) (X : loc) (name : string)
        (inner outer : list scope) (sc : scope) (v : variable) :
  In X (visit [] ast) ->
  here X = Identifier name ->
  getScope ctx (path_of X) = inner ++ sc :: outer ->
  (forall s, In s inner -> find (named name) s = None) ->
  find (named name) sc = Some v ->
  (forall d D, In d (defs v) -> In D (visit [] ast) ->
               path_of D = def_node d -> ~ isBindingDeclarator ctx D) ->
  reports_at X (run ctx ast) = 0.
Proof.
  intros HX Hid Hch Hin Hn Hnb. unfold run.
  eapply Scopes.no_report_at_identifier; try eassumption.
  - intros l Hl. exact Hl.
  - now apply not_entered_not_registered.
Qed.

Lemma non_binding_declaration_never_reported_witness :
  reports_at exemptBinding_use (run exemptHost exemptBinding) = 0.
Proof.
  apply (@non_binding_declaration_never_reported exemptHost exemptBinding
           exemptBinding_use "t" [] [] tScope
           (Variable_ "t"
              [Definition_ "VariableDeclarator" [FDeclarations 0; FBody 0]]));
    try reflexivity.
  - vm_compute. tauto.
  - intros s [].
  - intros d D [<-|[]] HD Hp (x & o & p & c & opt & Hh & _ & Hs).
    simpl in HD.
    repeat (destruct HD as [<-|HD]; [try discriminate Hp; try discriminate Hh|]);
      [|destruct HD].
    injection Hh as _ <- <- <- <-. vm_compute in Hs. discriminate Hs.
Defined.

End Uses.

(** ** The guards of an access, read from its ancestors *)

Module Guards.
Import Rule TS Engine Traversal Reports Examples Statements.

(** What a report of the listener for member expressions implies. *)
Lemma onMemberExpression_reported (ctx : context) (U : loc) :
  onMemberExpression ctx U <> [] ->
  isArrayIndexAccess (here U) = true /\
  isDirectUse U = true /\
  isSafeKeyAccess (stack ctx) U (services_of ctx) = false /\
  isInsideSafeForLoop U = false /\
  isIdentityGuarded U = false /\
  isOptionalUse U = false /\
  isInsideNullCheck U = false.
Proof.
  unfold onMemberExpression, isIdentityGuarded.
  destruct (here U) as [| |o p c opt| | | | | | | | | | | | | | | | |] eqn:EU;
    try (intro H; now contradiction H).
  destruct (isArrayIndexAccess (MemberExpression o p c opt)) eqn:Ea;
    [|intro H; now contradiction H].
  change (negb true) with false. cbv iota.
  destruct (truthy (getArrayIndexVariableName U));
    [intro H; now contradiction H|].
  destruct (isSafeKeyAccess (stack ctx) U (services_of ctx)) eqn:Es;
    [intro H; now contradiction H|].
  destruct (isInsideSafeForLoop U) eqn:El; [intro H; now contradiction H|].
  destruct (getArrayIndexAccessKey (MemberExpression o p c opt)) as [k|] eqn:Ek.
  - destruct (truthy (Some k) && isInsideNullCheckedBlockExpression U k) eqn:Ei;
      [intro H; now contradiction H|].
    intro H.
    assert (G : isDirectUse U = true /\ isOptionalUse U = false /\
                isInsideNullCheck U = false).
    { unfold isUnsafePropertyAccess, isUnsafeFunctionCall in H.
      unfold isDirectUse, isOptionalUse.
      destruct (parent U) as [q|]; [|now contradiction H].
      destruct (here q); try (now contradiction H).
      - destruct (same_node _ U); [|now contradiction H].
        destruct (hasOptionalChaining q); [now contradiction H|].
        destruct (isInsideNullCheck U); [now contradiction H | auto].
      - destruct (same_node _ U); [|now contradiction H].
        destruct (hasOptionalChaining U); [now contradiction H|].
        destruct (isInsideNullCheck U); [now contradiction H | auto]. }
    tauto.
  - simpl andb. cbv iota. intro H.
    assert (G : isDirectUse U = true /\ isOptionalUse U = false /\
                isInsideNullCheck U = false).
    { unfold isUnsafePropertyAccess, isUnsafeFunctionCall in H.
      unfold isDirectUse, isOptionalUse.
      destruct (parent U) as [q|]; [|now contradiction H].
      destruct (here q); try (now contradiction H).
      - destruct (same_node _ U); [|now contradiction H].
        destruct (hasOptionalChaining q); [now contradiction H|].
        destruct (isInsideNullCheck U); [now contradiction H | auto].
      - destruct (same_node _ U); [|now contradiction H].
        destruct (hasOptionalChaining U); [now contradiction H|].
        destruct (isInsideNullCheck U); [now contradiction H | auto]. }
    tauto.
Qed.

(** X7: a report anchored at a member expression implies that it is a
    classified access, read or called directly, not exempt, outside
    every safe loop, and that no identity guard, no optional chaining
    and no context guard applies to it. *)
Theorem reported_access_is_unguarded (ctx : context) (ast : AST.node)
        (U : loc) (o p : AST.node) (c opt : bool) :
  In U (visit [] ast) ->
  here U = MemberExpression o p c opt ->
  reports_at U (run ctx ast) <> 0 ->
  isArrayIndexAccess (here U) = true /\
  isDirectUse U = true /\
  isSafeKeyAccess (stack ctx) U (services_of ctx) = false /\
  isGuarded U = false.
Proof.
  intros HU Hh Hr.
  rewrite reports_at_member in Hr;
    [| assumption | intros s E; rewrite Hh in E; discriminate E].
  assert (Hne : onMemberExpression ctx U <> [])
    by (intro E; rewrite E in Hr; now apply Hr).
  apply onMemberExpression_reported in Hne
    as (Ha & Hd & Hs & Hl & Hi & Ho & Hn).
  unfold isGuarded. rewrite Hl, Hi, Ho, Hn. auto.
Qed.

Lemma reported_access_is_unguarded_witness :
  isGuarded bareUse_access = false.
Proof.
  apply (@reported_access_is_unguarded syntaxHost bareUse bareUse_access
           (Identifier "arr") zero true false).
  - vm_compute. tauto.
  - reflexivity.
  - vm_compute. discriminate.
Defined.

Lemma ancestors_in (pre rest : list (AST.node * field)) (a : AST.node)
      (f : field) :
  In (Loc a rest) (ancestors_up (pre ++ (a, f) :: rest)).
Proof.
  induction pre as [|[b g] pre IH]; simpl; auto.
Qed.

Lemma below_field (pre rest : list (AST.node * field)) (a c : AST.node)
      (f : field) (b : AST.node) (g : field) :
  existsb (same_node (sub (Loc a rest) f c))
          (ancestors_up ((b, g) :: pre ++ (a, f) :: rest)) = true.
Proof.
  revert b g. induction pre as [|[b' g'] pre IH]; intros b g.
  - change (existsb (same_node (sub (Loc a rest) f c))
              (Loc b ((a, f) :: rest) :: ancestors_up ((a, f) :: rest))
            = true).
    assert (E : same_node (sub (Loc a rest) f c) (Loc b ((a, f) :: rest))
                = true) by apply path_eqb_refl.
    cbn [existsb]. rewrite E. reflexivity.
  - change (existsb (same_node (sub (Loc a rest) f c))
              (Loc b (((b', g') :: pre) ++ (a, f) :: rest)
               :: ancestors_up ((b', g') :: pre ++ (a, f) :: rest)) = true).
    cbn [existsb]. rewrite IH. apply orb_true_r.
Qed.

(** A node reached through field [f] of an ancestor is the child in that
    field or lies below it. *)
Lemma within_field (U : loc) (pre rest : list (AST.node * field))
      (a c : AST.node) (f : field) :
  up U = pre ++ (a, f) :: rest ->
  same_node (sub (Loc a rest) f c) U || isDescendant (sub (Loc a rest) f c) U
  = true.
Proof.
  intro H. destruct pre as [|[b g] pre].
  - assert (E : same_node (sub (Loc a rest) f c) U = true).
    { unfold same_node, path_of. rewrite H. apply path_eqb_refl. }
    rewrite E. reflexivity.
  - unfold isDescendant, ancestors. rewrite H.
    change (((b, g) :: pre) ++ (a, f) :: rest)
      with ((b, g) :: pre ++ (a, f) :: rest).
    rewrite (below_field pre rest a c f b g). apply orb_true_r.
Qed.

Lemma context_guard_applies (U : loc) (pre rest : list (AST.node * field))
      (a : AST.node) (f : field) :
  up U = pre ++ (a, f) :: rest ->
  isContextGuard a f = true ->
  isDirectUse U = true ->
  isOptionalUse U || isInsideNullCheck U = true.
Proof.
  intros Hup Hg Hd.
  assert (Ha : In (Loc a rest) (ancestors U))
    by (unfold ancestors; rewrite Hup; apply ancestors_in).
  assert (null : checkNodeSafety U (Loc a rest) = true ->
                 isOptionalUse U || isInsideNullCheck U = true).
  { intro H. apply orb_true_iff. right. apply existsb_exists.
    exists (Loc a rest). auto. }
  destruct a; try discriminate Hg.
  - (* chain wrapper *)
    apply orb_true_iff. left.
    unfold isDirectUse in Hd. unfold isOptionalUse, parent in *.
    destruct pre as [|[b g] pre]; rewrite Hup in *; simpl in *;
      [discriminate Hd|].
    assert (chain : forall x,
               up x = pre ++ (ChainExpression a, f) :: rest \/
               up x = (b, g) :: pre ++ (ChainExpression a, f) :: rest ->
               existsb (fun current =>
                          match here current with
                          | ChainExpression _ => true
                          | _ => false
                          end) (ancestors x) = true).
    { intros x Hx. apply existsb_exists.
      exists (Loc (ChainExpression a) rest). split; [|reflexivity].
      unfold ancestors.
      destruct Hx as [-> | ->];
        [apply ancestors_in
        | apply (ancestors_in ((b, g) :: pre))]. }
    destruct b; try discriminate Hd; unfold hasOptionalChaining.
    + simpl here. destruct optional; [reflexivity|].
      apply chain. left. reflexivity.
    + destruct (here U); try (apply chain; right; assumption).
      destruct optional0; [reflexivity | apply chain; right; assumption].
  - (* [??], or the right operand of [&&] *)
    apply null. unfold checkNodeSafety. simpl here.
    unfold isSafeInLogicalAnd, isNullishCoalescing. simpl here.
    simpl in Hg. apply orb_true_iff in Hg as [Hg|Hg];
      [rewrite Hg; apply orb_true_r|].
    apply andb_true_iff in Hg as [Hop Hf].
    destruct f; try discriminate Hf.
    rewrite Hop. rewrite (within_field U pre rest _ a2 FRight Hup).
    reflexivity.
  - (* the test or the consequent of a ternary *)
    apply null. unfold checkNodeSafety. simpl here.
    unfold isSafeInConditional. simpl here.
    destruct f; try discriminate Hg.
    + rewrite (within_field U pre rest _ a1 FTest Hup). reflexivity.
    + rewrite (within_field U pre rest _ a2 FConsequent Hup).
      apply orb_true_r.
  - (* any [if] *)
    apply null. reflexivity.
Qed.

(** X8: a member expression below an [if] statement (in its test or in
    either branch), below a [??], below an optional chain wrapper, in
    the right operand of an [&&] or in the test or consequent of a
    ternary gets no report, whatever these constructs test. *)
Theorem context_guards_silence (ctx : context) (ast : AST.node) (U : loc)
        (o p : AST.node) (c opt : bool)
        (pre rest : list (AST.node * field)) (a : AST.node) (f : field) :
  In U (visit [] ast) ->
  here U = MemberExpression o p c opt ->
  up U = pre ++ (a, f) :: rest ->
  isContextGuard a f = true ->
  reports_at U (run ctx ast) = 0.
Proof.
  intros HU Hh Hup Hg.
  rewrite reports_at_member;
    [| assumption | intros s E; rewrite Hh in E; discriminate E].
  destruct (onMemberExpression ctx U) as [|d r] eqn:E; [reflexivity|].
  assert (Hne : onMemberExpression ctx U <> [])
    by (rewrite E; discriminate).
  apply onMemberExpression_reported in Hne
    as (_ & Hd & _ & _ & _ & Ho & Hn).
  pose proof (context_guard_applies U pre rest a f Hup Hg Hd) as G.
  rewrite Ho, Hn in G. discriminate G.
Qed.

Lemma context_guards_silence_witness :
  reports_at (underIf_access (Identifier "flag"))
             (run syntaxHost (underIf (Identifier "flag"))) = 0.
Proof.
  apply (@context_guards_silence syntaxHost (underIf (Identifier "flag"))
           (underIf_access (Identifier "flag"))
           (Identifier "arr") zero true false
           (firstn 3 (up (underIf_access (Identifier "flag"))))
           (skipn 4 (up (underIf_access (Identifier "flag"))))
           (IfStatement (Identifier "flag")
              (BlockStatement [ExpressionStatement (dot arr0 "x")]) None)
           FConsequent);
    try reflexivity.
  vm_compute. tauto.
Defined.

End Guards.

(** ** Narrowing by the statements before a use *)

Module Blocks.
Import Rule TS Engine Traversal Reports Examples Statements.

Lemma findContainingStatement_from_block (inner outer : list (AST.node * field))
      (B : AST.node) (f : field) :
  isBlock B = true ->
  forallb (fun e => negb (isBlock (fst e))) inner = true ->
  forall n, exists s,
      findContainingStatement_from n (inner ++ (B, f) :: outer)
      = Some (Loc s ((B, f) :: outer)).
Proof.
  intros HB. induction inner as [|[b g] inner IH]; intros Hin n.
  - exists n. simpl. destruct B; try discriminate HB; reflexivity.
  - simpl in Hin. apply andb_true_iff in Hin as [Hb Hin].
    destruct (IH Hin b) as [s Hs]. exists s. simpl.
    destruct b; try discriminate Hb; exact Hs.
Qed.

Lemma indexOf_statement (P stmt : loc) (i : nat) (l : list AST.node) :
  path_of stmt = FBody i :: path_of P ->
  forall j, j <= i -> i < j + List.length l ->
            indexOf_from j
              (map (fun fc => sub P (fst fc) (snd fc)) (indexed FBody j l))
              stmt
            = Some i.
Proof.
  intro Hp. induction l as [|x r IH]; intros j Hj Hi; simpl in *; [lia|].
  unfold same_node at 1.
  change (path_of (sub P (FBody j) x)) with (FBody j :: path_of P).
  rewrite Hp. simpl path_eqb. rewrite path_eqb_refl, andb_true_r.
  destruct (Nat.eqb j i) eqn:E.
  - apply Nat.eqb_eq in E. now subst.
  - apply Nat.eqb_neq in E. apply IH; lia.
Qed.

Lemma existsb_firstn_indexed (F : AST.node -> bool) (P : loc)
      (l : list AST.node) :
  forall i j,
    existsb (fun s => F (here s))
            (firstn i (map (fun fc => sub P (fst fc) (snd fc))
                           (indexed FBody j l)))
    = existsb F (firstn i l).
Proof.
  induction l as [|x r IH]; intros i j; destruct i; simpl; try reflexivity.
  now rewrite IH.
Qed.

Lemma previousStatements_block (U : loc) (inner outer : list (AST.node * field))
      (B : AST.node) (i : nat) :
  up U = inner ++ (B, FBody i) :: outer ->
  isBlock B = true ->
  forallb (fun e => negb (isBlock (fst e))) inner = true ->
  i < List.length (statementsOf B) ->
  previousStatements U
  = Some (firstn i (map (fun fc => sub (Loc B outer) (fst fc) (snd fc))
                        (indexed FBody 0 (statementsOf B)))).
Proof.
  intros Hup HB Hin Hi. unfold previousStatements, findContainingStatement.
  rewrite Hup.
  destruct (findContainingStatement_from_block inner outer B (FBody i) HB Hin
              (here U)) as [s ->].
  unfold parent. cbn [up]. cbv iota beta.
  assert (G : getStatements (Loc B outer)
              = Some (map (fun fc => sub (Loc B outer) (fst fc) (snd fc))
                          (indexed FBody 0 (statementsOf B)))).
  { unfold getStatements. destruct B; try discriminate HB; reflexivity. }
  rewrite G. unfold indexOf.
  rewrite (@indexOf_statement (Loc B outer) _ i (statementsOf B));
    [reflexivity | reflexivity | lia | lia].
Qed.

(** X9: narrowing by an earlier statement looks only at the statements
    of the innermost block around the use that come strictly before the
    statement holding the use: an early exit for a variable, an early
    exit or a lazy initialization for an access.  Guards in outer blocks
    or after the use play no part. *)
Theorem previous_statements_block_local (U : loc)
        (inner outer : list (AST.node * field)) (B : AST.node) (i : nat)
        (variableName expressionKey : string) :
  up U = inner ++ (B, FBody i) :: outer ->
  isBlock B = true ->
  forallb (fun e => negb (isBlock (fst e))) inner = true ->
  i < List.length (statementsOf B) ->
  checkPreviousIfStatementsForVariable U variableName
  = existsb (fun s => hasEarlyExitPatternForVariable s variableName)
            (firstn i (statementsOf B)) /\
  checkPreviousIfStatementsForExpression U expressionKey
  = existsb (fun s => hasEarlyExitPatternForExpression s expressionKey ||
                      hasInitializationPatternForExpression s expressionKey)
            (firstn i (statementsOf B)).
Proof.
  intros Hup HB Hin Hi.
  unfold checkPreviousIfStatementsForVariable,
    checkPreviousIfStatementsForExpression.
  rewrite (@previousStatements_block U inner outer B i Hup HB Hin Hi).
  split.
  - apply (existsb_firstn_indexed
             (fun s => hasEarlyExitPatternForVariable s variableName)).
  - apply (existsb_firstn_indexed
             (fun s => hasEarlyExitPatternForExpression s expressionKey ||
                       hasInitializationPatternForExpression s expressionKey)).
Qed.

Lemma previous_statements_block_local_witness :
  checkPreviousIfStatementsForVariable negatedExitVariable_member "item"
  = true.
Proof.
  destruct (@previous_statements_block_local negatedExitVariable_member
              [(ExpressionStatement (dot (Identifier "item") "x"), FExpression)]
              [] negatedExitVariable 2 "item" "arr[0]"
              eq_refl eq_refl eq_refl) as [H _].
  - simpl. lia.
  - rewrite H. reflexivity.
Defined.

End Blocks.

(** ** The identity of an access *)

Module Keys.
Import Rule TS Engine Traversal Reports Examples Statements.

Lemma prefix_append (a b c : string) :
  prefix a b = true -> prefix a (b ++ c)%string = true.
Proof.
  revert b. induction a as [|x a IH]; intros b H;
    [destruct (b ++ c)%string; reflexivity|].
  destruct b as [|y b]; [discriminate H|]. simpl in *.
  destruct (ascii_dec x y); [now apply IH | discriminate H].
Qed.

Lemma prefix_refl (a : string) : prefix a a = true.
Proof.
  induction a as [|x a IH]; [reflexivity|]. simpl.
  destruct (ascii_dec x x); [assumption | contradiction].
Qed.

Lemma append_nonempty (a b : string) (x : ascii) :
  (a ++ String x b)%string <> EmptyString.
Proof. destruct a; discriminate. Qed.

Lemma truthy_Some (k : option string) :
  truthy k = true -> exists s, k = Some s.
Proof. destruct k; [eauto | discriminate]. Qed.

(** A key starts with the name of the identifier at the root of the
    chain. *)
Lemma getMemberExpressionKey_root (n : AST.node) :
  forall k, getMemberExpressionKey n = Some k ->
            (exists name, root n = Identifier name /\ prefix name k = true) /\
            k <> EmptyString.
Proof.
  induction n as [n IH] using node_children_ind. intros k H.
  destruct n as [| |o p c opt| | | | | | | | | | | | | | | | |];
    try discriminate H.
  assert (IHo : forall ko, getMemberExpressionKey o = Some ko ->
                           exists name, root o = Identifier name /\
                                        prefix name ko = true).
  { intros ko Hk. apply (IH FObject o); [simpl; auto | exact Hk]. }
  assert (objectKey :
            forall ok,
              match o with
              | Identifier name => Some name
              | MemberExpression _ _ _ _ =>
                  if truthy (getMemberExpressionKey o)
                  then getMemberExpressionKey o else None
              | _ => None
              end = Some ok ->
              exists name, root o = Identifier name /\ prefix name ok = true).
  { intros ok Hok. destruct o; try discriminate Hok.
    - injection Hok as <-. exists name. split; [reflexivity|].
      apply prefix_refl.
    - destruct (truthy (getMemberExpressionKey
                          (MemberExpression o1 o2 computed optional)));
        [|discriminate Hok].
      now apply IHo. }
  simpl in H. destruct c.
  - unfold arrayIndexKey in H.
    destruct (isArrayIndexAccess (MemberExpression o p true opt));
      [|discriminate H].
    change (negb true) with false in H. cbv iota in H.
    match type of H with
    | match ?e with _ => _ end = _ =>
        case_eq e; [intros ok Eok | intro Eok]; rewrite Eok in H
    end; [|discriminate H].
    destruct (objectKey ok Eok) as (name & Hr & Hp).
    destruct (match p with
              | Literal v => Some (string_of_literal v)
              | Identifier name0 => Some name0
              | _ => None
              end) as [ik|]; [|discriminate H].
    injection H as <-. split.
    + exists name. split; [exact Hr | now apply prefix_append].
    + apply append_nonempty.
  - match type of H with
    | match ?e with _ => _ end = _ =>
        case_eq e; [intros ok Eok | intro Eok]; rewrite Eok in H
    end; [|discriminate H].
    destruct (objectKey ok Eok) as (name & Hr & Hp).
    destruct p; try discriminate H. injection H as <-. split.
    + exists name. split; [exact Hr | now apply prefix_append].
    + apply append_nonempty.
Qed.

(** X10: an access has an identity only if it is computed with a numeric
    literal or an identifier as key and its chain of objects starts at
    an identifier; the identity then starts with the name of that
    identifier and is never the empty string.  Chains through a call, a
    [this] or any other expression, and keys that are expressions, have
    none. *)
Theorem identity_key_shape (n : AST.node) (k : string) :
  getArrayIndexAccessKey n = Some k ->
  (exists o p opt,
      n = MemberExpression o p true opt /\
      ((exists v, p = Literal (LNumber v)) \/ (exists s, p = Identifier s))) /\
  (exists name, root n = Identifier name /\ prefix name k = true) /\
  k <> EmptyString.
Proof.
  intro H.
  destruct n as [| |o p c opt| | | | | | | | | | | | | | | | |];
    try discriminate H.
  assert (Hc : c = true /\
               ((exists v, p = Literal (LNumber v)) \/
                (exists s, p = Identifier s))).
  { unfold getArrayIndexAccessKey, arrayIndexKey in H.
    destruct (isArrayIndexAccess (MemberExpression o p c opt)) eqn:Ea;
      [|discriminate H].
    change (negb true) with false in H. cbv iota in H.
    destruct c; [|discriminate Ea]. split; [reflexivity|].
    destruct p; try discriminate Ea; eauto.
    - destruct value; try discriminate Ea. eauto.
    - exfalso.
      match type of H with
      | match ?e with _ => _ end = _ => destruct e
      end; discriminate H. }
  destruct Hc as [-> Hp].
  assert (Hm : getMemberExpressionKey (MemberExpression o p true opt) = Some k)
    by exact H.
  apply getMemberExpressionKey_root in Hm as [Hr Hne].
  split; [|split; assumption].
  exists o, p, opt. auto.
Qed.

Lemma identity_key_shape_witness :
  exists name, root bindList0 = Identifier name /\
               prefix name "payload.bindList[0]" = true.
Proof.
  apply (@identity_key_shape bindList0 "payload.bindList[0]"). reflexivity.
Defined.

Lemma getObjectKey_member (n : AST.node) :
  forall k, getObjectKey n = Some k ->
            match n with
            | Identifier name => k = name
            | _ => getMemberExpressionKey n = Some k
            end.
Proof.
  induction n as [n IH] using node_children_ind. intros k H.
  destruct n as [name| |o p c opt| | | | | | | | | | | | | | | | |];
    try discriminate H.
  - now injection H as <-.
  - destruct c; [discriminate H|]. simpl in H.
    destruct (getObjectKey o) as [ko|] eqn:Eo; [|discriminate H].
    destruct p as [pname| | | | | | | | | | | | | | | | | | |];
      try discriminate H.
    destruct (truthy (Some ko)) eqn:Et; [|discriminate H].
    injection H as <-.
    pose proof (IH FObject o (or_introl eq_refl) ko Eo) as Ho.
    simpl. destruct o; try discriminate Eo.
    + now subst.
    + rewrite Ho, Et. reflexivity.
Qed.

(** X11: the two ways of naming a chain agree: when [getObjectKey] names
    the object of an access (the name loop-bound narrowing compares),
    the identity of the access is that name followed by the key in
    brackets. *)
Theorem object_key_extends_to_identity (obj : AST.node) (k : string) :
  getObjectKey obj = Some k ->
  (forall i opt,
      getArrayIndexAccessKey (MemberExpression obj (Identifier i) true opt)
      = Some (k ++ "[" ++ i ++ "]")%string) /\
  (forall v opt,
      getArrayIndexAccessKey
        (MemberExpression obj (Literal (LNumber v)) true opt)
      = Some (k ++ "[" ++ string_of_number v ++ "]")%string).
Proof.
  intro H. pose proof (@getObjectKey_member obj k H) as Hm.
  assert (Ht : forall o p c opt, obj = MemberExpression o p c opt ->
                                 truthy (Some k) = true).
  { intros o p c opt ->. apply getMemberExpressionKey_root in Hm as [_ Hne].
    simpl. destruct (k =? EmptyString) eqn:E; [|reflexivity].
    apply String.eqb_eq in E. contradiction. }
  split; intros; unfold getArrayIndexAccessKey, arrayIndexKey;
    change (isArrayIndexAccess _) with true; change (negb true) with false;
    cbv iota;
    (destruct obj; try discriminate H;
     [subst; reflexivity
     | rewrite Hm, (Ht _ _ _ _ eq_refl); reflexivity]).
Qed.

Lemma object_key_extends_to_identity_witness :
  getArrayIndexAccessKey bindList0 = Some "payload.bindList[0]".
Proof.
  apply (@object_key_extends_to_identity (dot (Identifier "payload") "bindList")
           "payload.bindList" eq_refl).
Defined.

End Keys.

(** ** What the oracle consults *)

Module Exemptions.
Import Rule TS Engine Traversal Reports Examples Statements.

(** X12: the properties of the object type never influence the answer:
    two checkers that differ only in [getPropertiesOfType] - even when
    one of them throws there - give the same exemption. *)
Theorem properties_never_consulted (c1 c2 : TypeChecker) :
  sameButProperties c1 c2 ->
  forall stack indexType objectType,
    catch_false (isTypeSafeIndex stack indexType objectType c1)
    = catch_false (isTypeSafeIndex stack indexType objectType c2).
Proof.
  intros (_ & Ha & Ht & Hb) stack.
  induction stack as [|stack IH]; intros indexType objectType; [reflexivity|].
  simpl. rewrite <- Ha, <- Ht, <- Hb.
  destruct (has_flag indexType TypeFlags.Number); [reflexivity|].
  destruct (isNumberLiteral indexType); [reflexivity|].
  destruct (isArrayType c1 objectType) as [[|]|]; simpl; try reflexivity.
  destruct (isTupleType c1 objectType) as [[|]|]; simpl; try reflexivity.
  destruct (isEnumType indexType); [reflexivity|].
  destruct (isUnion indexType && _); [reflexivity|].
  destruct (isStringLiteral indexType); [reflexivity|].
  destruct (getBaseConstraintOfType c1 indexType) as [[u|]|]; simpl;
    try reflexivity.
  - destruct (negb (tid u =? tid indexType)%nat); [apply IH|].
    destruct (getPropertiesOfType c1 objectType),
             (getPropertiesOfType c2 objectType); simpl;
      repeat match goal with
             | |- context [if ?x then _ else _] => destruct x
             end; reflexivity.
  - destruct (getPropertiesOfType c1 objectType),
             (getPropertiesOfType c2 objectType); simpl;
      repeat match goal with
             | |- context [if ?x then _ else _] => destruct x
             end; reflexivity.
Qed.

Lemma properties_never_consulted_witness :
  catch_false (isTypeSafeIndex 64 stringType recordType
                 (checkerOf recordType stringType))
  = catch_false (isTypeSafeIndex 64 stringType recordType
                   (checkerWithoutProperties recordType stringType)).
Proof.
  apply properties_never_consulted. repeat split.
Defined.

(** X13: the oracle exempts only when the object is neither an array nor
    a tuple and the key type, or a type on its chain of base
    constraints, is drawn from a finite set of keys: an enum, a union of
    literal types or a string literal. *)
Theorem exemption_needs_finite_keys (checker : TypeChecker) (stack : nat) :
  forall indexType objectType,
    isTypeSafeIndex stack indexType objectType checker = Ok true ->
    isArrayType checker objectType = Ok false /\
    isTupleType checker objectType = Ok false /\
    exists t, constraintChain checker indexType t /\
              hasFiniteKeys t = true /\
              has_flag t TypeFlags.Number = false /\
              isNumberLiteral t = false.
Proof.
  induction stack as [|stack IH]; intros indexType objectType H;
    [discriminate H|].
  simpl in H.
  destruct (has_flag indexType TypeFlags.Number) eqn:En; [discriminate H|].
  destruct (isNumberLiteral indexType) eqn:El; [discriminate H|].
  destruct (isArrayType checker objectType) as [[|]|] eqn:Ea;
    simpl in H; try discriminate H.
  destruct (isTupleType checker objectType) as [[|]|] eqn:Et;
    simpl in H; try discriminate H.
  assert (here : hasFiniteKeys indexType = true ->
                 Ok false = Ok false /\ Ok false = Ok false /\
                 exists t, constraintChain checker indexType t /\
                           hasFiniteKeys t = true /\
                           has_flag t TypeFlags.Number = false /\
                           isNumberLiteral t = false).
  { intro Hf. repeat split. exists indexType.
    repeat split; try assumption. constructor. }
  unfold hasFiniteKeys in here.
  destruct (isEnumType indexType); [now apply here|].
  destruct (isUnion indexType && _); [now apply here|].
  destruct (isStringLiteral indexType); [now apply here|].
  destruct (getBaseConstraintOfType checker indexType) as [[u|]|] eqn:Eb;
    simpl in H; try discriminate H.
  - destruct (tid u =? tid indexType)%nat eqn:Eid; simpl in H.
    + destruct (getPropertiesOfType checker objectType); simpl in H;
        [destruct (a =? 0)%nat|]; discriminate H.
    + apply IH in H as (_ & _ & t & Hc & Hf & Hn & Hl).
      repeat split. exists t. repeat split; try assumption.
      apply chain_step with (u := u); try assumption.
      now apply Nat.eqb_neq.
  - destruct (getPropertiesOfType checker objectType); simpl in H;
      [destruct (a =? 0)%nat|]; discriminate H.
Qed.

Lemma exemption_needs_finite_keys_witness :
  exists t, constraintChain (checkerOf recordType enumKey) enumKey t /\
            hasFiniteKeys t = true.
Proof.
  destruct (@exemption_needs_finite_keys (checkerOf recordType enumKey) 64
              enumKey recordType eq_refl) as (_ & _ & t & Hc & Hf & _).
  exists t. auto.
Defined.

End Exemptions.

(** ** Narrowing by the ancestors of a use *)

Module Narrowing.
Import Rule TS Engine Traversal Reports Examples Statements.

Lemma path_eqb_length (p q : path) :
  path_eqb p q = true -> List.length p = List.length q.
Proof. intro H. apply path_eqb_eq in H. now subst. Qed.

Lemma same_node_length (a b : loc) :
  List.length (up a) <> List.length (up b) -> same_node a b = false.
Proof.
  intro H. destruct (same_node a b) eqn:E; [|reflexivity].
  apply path_eqb_length in E. unfold path_of in E.
  rewrite !length_map in E. contradiction.
Qed.

(** The ancestors above a node are too short to be its child. *)
Lemma no_child_above (T : loc) (q : list (AST.node * field)) :
  List.length q <= List.length (up T) ->
  existsb (same_node T) (ancestors_up q) = false.
Proof.
  induction q as [|[b h] q IH]; intro H; [reflexivity|].
  simpl in H. cbn [ancestors_up existsb].
  rewrite same_node_length by (simpl; lia).
  apply IH. lia.
Qed.

(** [isDescendant] of the child in field [g] of an ancestor: the node
    lies strictly below that ancestor, through field [g]. *)
Lemma isDescendant_below (U : loc) (pre rest : list (AST.node * field))
      (a c : AST.node) (f g : field) :
  up U = pre ++ (a, f) :: rest ->
  isDescendant (sub (Loc a rest) g c) U
  = match pre with [] => false | _ => field_eqb g f end.
Proof.
  intro H. unfold isDescendant, ancestors. rewrite H. clear H.
  destruct pre as [|[b h] pre].
  - apply no_child_above. simpl. lia.
  - revert b h. induction pre as [|[b' h'] pre IH]; intros b h.
    + change (existsb (same_node (sub (Loc a rest) g c))
                (Loc b ((a, f) :: rest) :: ancestors_up ((a, f) :: rest))
              = field_eqb g f).
      cbn [existsb]. rewrite no_child_above by (simpl; lia).
      rewrite orb_false_r. unfold same_node, path_of. simpl.
      now rewrite path_eqb_refl, andb_true_r.
    + change (existsb (same_node (sub (Loc a rest) g c))
                (Loc b (((b', h') :: pre) ++ (a, f) :: rest)
                 :: ancestors_up (((b', h') :: pre) ++ (a, f) :: rest))
              = field_eqb g f).
      cbn [existsb]. rewrite same_node_length.
      * apply IH.
      * simpl. rewrite length_app. simpl. lia.
Qed.

Lemma ancestors_split (F : loc) (q : list (AST.node * field)) :
  In F (ancestors_up q) <->
  exists pre f, q = pre ++ (here F, f) :: up F.
Proof.
  induction q as [|[b h] q IH]; simpl.
  - split; [intros [] | intros (pre & f & H); destruct pre; discriminate H].
  - rewrite IH. split.
    + intros [<- | (pre & f & ->)].
      * exists [], h. reflexivity.
      * exists ((b, h) :: pre), f. reflexivity.
    + intros (pre & f & H). destruct pre as [|e pre]; simpl in H.
      * injection H as -> _ ->. left. now destruct F.
      * injection H as _ ->. right. eauto.
Qed.

(** X14: a use of a variable is inside a null-checked block exactly when
    an earlier statement of its block is an early exit for the variable,
    or the use lies strictly below the consequent of an [if] whose test
    is a nullish check of the variable, or strictly below the right
    operand of [v && ...].  The test and the alternate of the [if] do not
    count, and neither does a use that is itself the right operand. *)
Theorem variable_guard_by_ancestors (U : loc) (v : string) :
  isInsideNullCheckedBlock U v = true <->
  checkPreviousIfStatementsForVariable U v = true \/
  exists pre a f rest,
    up U = pre ++ (a, f) :: rest /\ pre <> [] /\
    ((exists test c alt,
         a = IfStatement test c alt /\ f = FConsequent /\
         checksForNullish test v = true) \/
     (exists r,
         a = LogicalExpression "&&" (Identifier v) r /\ f = FRight)).
Proof.
  unfold isInsideNullCheckedBlock.
  destruct (checkPreviousIfStatementsForVariable U v); [tauto|].
  rewrite existsb_exists. split.
  - intros (F & HF & H). right.
    apply ancestors_split in HF as (pre & f & Hup).
    exists pre, (here F), f, (up F).
    destruct F as [a rest]. simpl in *.
    split; [assumption|].
    destruct a; try discriminate H.
    + unfold isInsideLogicalAndRight in H. cbn [here] in H; cbv iota beta in H.
      destruct (operator =? "&&") eqn:Eop; [|discriminate H].
      simpl negb in H. cbv iota in H.
      destruct a1; try discriminate H.
      destruct (name =? v) eqn:En; [|discriminate H].
      simpl negb in H. cbv iota in H.
      rewrite (isDescendant_below U pre rest _ a2 f FRight Hup) in H.
      destruct pre; [discriminate H|].
      split; [discriminate|]. right.
      apply String.eqb_eq in Eop, En. subst.
      destruct f; try discriminate H. eauto.
    + unfold isInsideIfConsequent in H. cbn [here] in H; cbv iota beta in H.
      destruct (checksForNullish a1 v) eqn:Ec; [|discriminate H].
      simpl negb in H. cbv iota in H.
      rewrite (isDescendant_below U pre rest _ a2 f FConsequent Hup) in H.
      destruct pre; [discriminate H|].
      split; [discriminate|]. left.
      destruct f; try discriminate H. eauto 6.
  - intros [H | (pre & a & f & rest & Hup & Hne & H)]; [discriminate H|].
    exists (Loc a rest). split.
    + unfold ancestors. apply ancestors_split. exists pre, f. exact Hup.
    + destruct H as [(test & c & alt & -> & -> & Hc) | (r & -> & ->)].
      * unfold isInsideIfConsequent. cbn [here]; cbv iota beta. rewrite Hc.
        simpl negb. cbv iota.
        rewrite (isDescendant_below U pre rest _ c FConsequent FConsequent Hup).
        destruct pre; [contradiction | reflexivity].
      * unfold isInsideLogicalAndRight. cbn [here]; cbv iota beta.
        change ("&&" =? "&&") with true.
        rewrite String.eqb_refl. simpl negb. cbv iota.
        rewrite (isDescendant_below U pre rest _ r FRight FRight Hup).
        destruct pre; [contradiction | reflexivity].
Qed.

(** In [item && item();] the call is the right operand itself and is
    reported. *)
Example and_of_the_call_itself_reported :
  anchors (run itemHost andCall)
  = [([FCallee; FRight; FExpression; FBody 1], "issue:unsafe-access")].
Proof. reflexivity. Qed.

(** X15: for an access, the narrowing by ancestors that is keyed by its
    identity never decides alone: whenever it applies, a context guard
    applies as well.  Of the identity guards only those by an earlier
    statement (early exit, lazy initialization) can change a report. *)
Theorem identity_ancestor_guards_subsumed (U : loc) (k : string) :
  isInsideNullCheckedBlockExpression U k = true ->
  checkPreviousIfStatementsForExpression U k = true \/
  isInsideNullCheck U = true.
Proof.
  unfold isInsideNullCheckedBlockExpression.
  destruct (checkPreviousIfStatementsForExpression U k); [auto|].
  intro H. right. apply existsb_exists in H as (F & HF & H).
  apply existsb_exists. exists F. split; [assumption|].
  unfold checkNodeSafety.
  destruct (here F) eqn:EF; try discriminate H; [|reflexivity].
  unfold isInsideLogicalAndRightExpression in H. rewrite EF in H.
  unfold isSafeInLogicalAnd. rewrite EF.
  destruct (operator =? "&&"); [|discriminate H].
  simpl negb in H. cbv iota in H.
  destruct n1; try discriminate H.
  match type of H with
  | (if negb ?x then _ else _) = _ => destruct x; [|discriminate H]
  end.
  simpl negb in H. cbv iota in H. rewrite H.
  now rewrite orb_true_r.
Qed.

Lemma identity_ancestor_guards_subsumed_witness :
  checkPreviousIfStatementsForExpression (underIf_access arr0) "arr[0]" = true
  \/ isInsideNullCheck (underIf_access arr0) = true.
Proof.
  apply identity_ancestor_guards_subsumed. reflexivity.
Defined.

End Narrowing.

(** ** Keys that are not a bare identifier *)

Module KeyForms.
Import Rule TS Engine Traversal Reports Examples Statements.

(** The listener for member expressions at a classified access that the
    oracle does not exempt: one report exactly when the access is used
    directly and none of the guard tests succeeds. *)
Lemma onMemberExpression_decided (ctx : context) (U : loc) :
  isArrayIndexAccess (here U) = true ->
  isSafeKeyAccess (stack ctx) U (services_of ctx) = false ->
  onMemberExpression ctx U
  = if isDirectUse U && negb (isGuarded U) then [unsafe_access U] else [].
Proof.
  intros Hacc Hex.
  destruct (isDirectUse U) eqn:Huse, (isGuarded U) eqn:Hg; cbn [andb negb];
    try (now apply Completeness.onMemberExpression_unguarded);
    destruct (onMemberExpression ctx U) as [|d ds] eqn:E; try reflexivity;
    destruct (@Guards.onMemberExpression_reported ctx U)
      as (_ & Huse' & _ & H1 & H2 & H3 & H4);
    try (rewrite E; discriminate);
    try (rewrite Huse in Huse'; discriminate Huse');
    unfold isGuarded in Hg; rewrite H1, H2, H3, H4 in Hg; discriminate Hg.
Qed.

(** An access that the classifier does not take for a dynamic-key access
    gets no report from the listener. *)
Lemma onMemberExpression_unclassified (ctx : context) (U : loc) :
  isArrayIndexAccess (here U) = false -> onMemberExpression ctx U = [].
Proof.
  intro Hacc.
  destruct (onMemberExpression ctx U) as [|d ds] eqn:E; [reflexivity|].
  destruct (@Guards.onMemberExpression_reported ctx U) as (H & _).
  - rewrite E; discriminate.
  - rewrite H in Hacc. discriminate Hacc.
Qed.

(** C9, as stated, fails: [map[Format.A]] in [map[Format.A].get();] is
    keyed by a member expression, is called on directly and stands under
    no guard, and is not reported: the classifier drops it before any
    guard rule is consulted. *)
Lemma member_key_reaches_no_guard_rule : ~ otherKeysReachGuardRules.
Proof.
  intro claim.
  destruct (claim syntaxHost memberKeyedUse memberKeyed_access
                  (Identifier "map") (dot (Identifier "Format") "A") false)
    as [_ H].
  - vm_compute. tauto.
  - reflexivity.
  - discriminate.
  - assert (E : reports_at memberKeyed_access (run syntaxHost memberKeyedUse)
                = 0) by (vm_compute; reflexivity).
    rewrite H in E; try discriminate E; try (vm_compute; reflexivity).
    intros [G|[G|[G|[G|G]]]]; try (vm_compute in G; discriminate G).
    + destruct G as (obj & i & c & o & F & init & test & update & body
                     & HU & _).
      discriminate HU.
    + destruct G as (S & HS & _). vm_compute in HS. discriminate HS.
Qed.

(** C9, amended: the oracle exempts only a computed access keyed by a
    bare identifier.  A computed access with any other key is never
    exempt; keyed by a numeric literal or a binary expression it is
    decided by the guard tests of the rule (one report exactly when it is
    read or called directly and no test succeeds), and with any other
    key, such as the member expression [Format.A] or a string literal, it
    is not a dynamic-key access and is never reported. *)
Theorem other_keys_never_exempt (ctx : context) (ast : AST.node) (U : loc)
  (obj key : AST.node) (opt : bool) :
  (isSafeKeyAccess (stack ctx) U (services_of ctx) = true ->
   exists o name opt',
     here U = MemberExpression o (Identifier name) true opt') /\
  (In U (visit [] ast) ->
   here U = MemberExpression obj key true opt ->
   (forall name, key <> Identifier name) ->
   isSafeKeyAccess (stack ctx) U (services_of ctx) = false /\
   ((exists n, key = Literal (LNumber n)) \/
    (exists op l r, key = BinaryExpression op l r) ->
    reports_at U (run ctx ast)
    = if isDirectUse U && negb (isGuarded U) then 1 else 0) /\
   ((forall n, key <> Literal (LNumber n)) ->
    (forall op l r, key <> BinaryExpression op l r) ->
    reports_at U (run ctx ast) = 0)).
Proof.
  split; [apply Oracle.isSafeKeyAccess_identifier_key|].
  intros HU EU Hkey.
  assert (Hex : isSafeKeyAccess (stack ctx) U (services_of ctx) = false).
  { destruct (isSafeKeyAccess (stack ctx) U (services_of ctx)) eqn:E;
      [|reflexivity].
    apply Oracle.isSafeKeyAccess_identifier_key in E
      as (o & name & opt' & E).
    rewrite EU in E. injection E as _ E _. now apply Hkey in E. }
  assert (Hid : forall s, here U <> Identifier s)
    by (intros s E; rewrite EU in E; discriminate E).
  split; [exact Hex|]. split.
  - intro Hform.
    rewrite (@reports_at_member ctx ast U HU Hid).
    rewrite onMemberExpression_decided; [|rewrite EU|exact Hex].
    + now destruct (isDirectUse U && negb (isGuarded U)).
    + apply Oracle.isArrayIndexAccess_iff. split; [reflexivity|].
      destruct Hform as [H|H]; auto.
  - intros Hnum Hbin.
    rewrite (@reports_at_member ctx ast U HU Hid).
    rewrite onMemberExpression_unclassified; [reflexivity|].
    rewrite EU.
    destruct (isArrayIndexAccess (MemberExpression obj key true opt)) eqn:E;
      [|reflexivity].
    apply Oracle.isArrayIndexAccess_iff in E
      as [_ [[n E]|[[s E]|(op & l & r & E)]]].
    + now apply Hnum in E.
    + now apply Hkey in E.
    + now apply Hbin in E.
Qed.

Lemma other_keys_never_exempt_witness :
  (isSafeKeyAccess 64 memberKeyed_access
     (services_of (typedHost (Ok (checkerOf recordType enumKey)))) = false /\
   reports_at memberKeyed_access
     (run (typedHost (Ok (checkerOf recordType enumKey))) memberKeyedUse) = 0)
  /\
  reports_at bareUse_access (run syntaxHost bareUse) = 1.
Proof.
  split.
  - destruct (other_keys_never_exempt
                (typedHost (Ok (checkerOf recordType enumKey)))
                memberKeyedUse memberKeyed_access
                (Identifier "map") (dot (Identifier "Format") "A") false)
      as [_ H].
    destruct H as (H1 & _ & H3);
      [vm_compute; tauto | reflexivity | discriminate |].
    split; [exact H1|]. apply H3; discriminate.
  - destruct (other_keys_never_exempt syntaxHost bareUse bareUse_access
                (Identifier "arr") zero false) as [_ H].
    destruct H as (_ & H2 & _);
      [vm_compute; tauto | reflexivity | discriminate |].
    rewrite H2; [reflexivity|]. left. now exists 0%N.
Defined.

End KeyForms.
